(** * Technoir transmission generator: the generation pipeline

    A shallow embedding of [services/gemini.ts], [types.ts], the
    [SYSTEM_INSTRUCTION] of [constants.ts] and the lead handlers of
    [App.tsx], followed by the properties of the pipeline: credential
    precondition, stream aggregation, fence stripping, image tolerance,
    per-lead containment, and the frame properties of lead editing and
    single-field regeneration.

    Strings are [string]s: sequences of 8-bit code units.  Promises are
    computations in a state-and-exception monad over a [World] that holds
    the browser's local storage, the React state of the component and the
    trace of everything observable the code did (transport calls, callback
    invocations, console output, saves). *)

From Stdlib Require Import String Ascii List Bool Arith NArith ZArith Lia DecimalString.
Import ListNotations.
Open Scope list_scope.
Open Scope string_scope.

(** ** Text: template literals and the string methods used by the code *)

Module Text.

(** The characters that a Rocq literal cannot hold directly. *)
Definition nl : string := String "010"%char EmptyString.
Definition dq : string := String "034"%char EmptyString.
Definition backtick : ascii := "096"%char.

(** [xs.join('\n')] and the line structure of a template literal. *)
Definition join (sep : string) (xs : list string) : string := String.concat sep xs.
Definition lines (xs : list string) : string := join nl xs.

(** [`"${s}"`]. *)
Definition quoted (s : string) : string := dq ++ s ++ dq.

(** JavaScript truthiness of a string: [if (text)]. *)
Definition truthy (s : string) : bool :=
  match s with EmptyString => false | String _ _ => true end.

(** ECMAScript WhiteSpace and LineTerminator among the 8-bit code units:
    TAB, LF, VT, FF, CR, SP and NBSP. *)
Definition is_white_space (c : ascii) : bool :=
  existsb (N.eqb (N_of_ascii c)) [9; 10; 11; 12; 13; 32; 160]%N.

Fixpoint trimStart (s : string) : string :=
  match s with
  | EmptyString => EmptyString
  | String c r => if is_white_space c then trimStart r else s
  end.

Fixpoint trimEnd (s : string) : string :=
  match s with
  | EmptyString => EmptyString
  | String c r =>
      match trimEnd r with
      | EmptyString => if is_white_space c then EmptyString else String c EmptyString
      | r' => String c r'
      end
  end.

(** [String.prototype.trim]. *)
Definition trim (s : string) : string := trimEnd (trimStart s).

(** The regular expression [/```json\n?|```/]: the length of the match
    that starts at the head of [s], if there is one.  The alternatives
    are tried in order and [\n?] is greedy. *)
Definition fence : string := String backtick (String backtick (String backtick EmptyString)).
Definition fence_json : string := fence ++ "json".
Definition fence_json_nl : string := fence_json ++ nl.

Definition fence_match (s : string) : option nat :=
  if prefix fence_json_nl s then Some 8
  else if prefix fence_json s then Some 7
  else if prefix fence s then Some 3
  else None.

(** [s.replace(/```json\n?|```/g, '')]: a left-to-right scan that deletes
    every match and resumes right after it.  [skip] counts the
    characters of the current match that are still to be deleted. *)
Fixpoint replace_fences_from (skip : nat) (s : string) : string :=
  match s with
  | EmptyString => EmptyString
  | String c r =>
      match skip with
      | S k => replace_fences_from k r
      | O =>
          match fence_match s with
          | Some (S k) => replace_fences_from k r
          | _ => String c (replace_fences_from 0 r)
          end
      end
  end.

Definition replace_fences (s : string) : string := replace_fences_from 0 s.

(** [fullText.replace(/```json\n?|```/g, '').trim()] of [streamJson]. *)
Definition cleanText (fullText : string) : string := trim (replace_fences fullText).

(** Whether a string opens with a backtick. *)
Definition starts_with_backtick (s : string) : bool :=
  match s with
  | String c _ => if ascii_dec c backtick then true else false
  | EmptyString => false
  end.

(** A string that holds no triple backtick at any position. *)
Fixpoint fence_free (s : string) : bool :=
  match s with
  | EmptyString => true
  | String _ r => negb (prefix fence s) && fence_free r
  end.

End Text.

(** ** types.ts *)

Inductive Category : Type :=
  Connections | Events | Locations | Objects | Threats | Factions.

(** The string a [Category] is at run time, as template literals print it. *)
Definition Category_label (c : Category) : string :=
  match c with
  | Connections => "Connections"
  | Events => "Events"
  | Locations => "Locations"
  | Objects => "Objects"
  | Threats => "Threats"
  | Factions => "Factions"
  end.

Record Sensory : Type := {
  sight : string;
  sound : string;
  smell : string;
  vibe : string
}.

Record LeadDetails : Type := {
  sensory : Sensory;
  expandedDescription : string;
  imageUrl : option string
}.

Record Lead : Type := {
  id : string;
  name : string;
  description : string;
  category : Category;
  details : option LeadDetails
}.

Record Exposition : Type := {
  technology : string;
  society : string;
  environment : string
}.

Record Transmission : Type := {
  transmission_id : Z;
  createdAt : string;
  title : string;
  settingSummary : string;
  exposition : Exposition;
  headerImageUrl : option string;
  leads : list Lead
}.

Inductive Status : Type := setup | loading | viewing.

Record GameState : Type := {
  transmission : option Transmission;
  status : Status;
  error : option string
}.

(** The [User] of types.ts; the handlers only test whether one is signed in. *)
Record User : Type := {
  email : string;
  user_name : string;
  picture : string;
  accessToken : option string;
  isMaster : bool
}.

(** [Pick<Transmission, 'title' | 'settingSummary'>]. *)
Record TitleAndSetting : Type := {
  picked_title : string;
  picked_settingSummary : string
}.

(** [Pick<LeadDetails, 'sensory' | 'expandedDescription'>]. *)
Record LeadText : Type := {
  picked_sensory : Sensory;
  picked_expandedDescription : string
}.

(** [{ leads: Lead[] }]; [generateLeads] guards against an absent array. *)
Record LeadsData : Type := {
  data_leads : option (list Lead)
}.

(** The union ['sight' | 'sound' | 'smell' | 'vibe']. *)
Inductive SensoryField : Type := Sight | Sound | Smell | Vibe.

Definition SensoryField_key (f : SensoryField) : string :=
  match f with
  | Sight => "sight"
  | Sound => "sound"
  | Smell => "smell"
  | Vibe => "vibe"
  end.

(** [{ [key: string]: string }]: TypeScript types [result[k]] as a string
    for every key [k]. *)
Definition StringIndexed : Type := string -> string.

(** [{ expandedDescription: string }]. *)
Record DossierData : Type := {
  data_expandedDescription : string
}.

(** The union ['sensory' | 'dossier' | 'image']. *)
Inductive FieldType : Type := FieldSensory | FieldDossier | FieldImage.

(** Object spread with one property replaced: [{ ...x, p: v }]. *)
Definition with_details (l : Lead) (d : option LeadDetails) : Lead :=
  {| id := id l; name := name l; description := description l;
     category := category l; details := d |}.

Definition with_leads (t : Transmission) (ls : list Lead) : Transmission :=
  {| transmission_id := transmission_id t; createdAt := createdAt t;
     title := title t; settingSummary := settingSummary t;
     exposition := exposition t; headerImageUrl := headerImageUrl t;
     leads := ls |}.

Definition with_transmission (s : GameState) (t : option Transmission) : GameState :=
  {| transmission := t; status := status s; error := error s |}.

Definition with_sensory (d : LeadDetails) (s : Sensory) : LeadDetails :=
  {| sensory := s; expandedDescription := expandedDescription d;
     imageUrl := imageUrl d |}.

Definition with_expandedDescription (d : LeadDetails) (e : string) : LeadDetails :=
  {| sensory := sensory d; expandedDescription := e; imageUrl := imageUrl d |}.

Definition with_imageUrl (d : LeadDetails) (u : option string) : LeadDetails :=
  {| sensory := sensory d; expandedDescription := expandedDescription d;
     imageUrl := u |}.

(** [{ ...sensory, [field]: value }]. *)
Definition with_field (s : Sensory) (f : SensoryField) (v : string) : Sensory :=
  match f with
  | Sight => {| sight := v; sound := sound s; smell := smell s; vibe := vibe s |}
  | Sound => {| sight := sight s; sound := v; smell := smell s; vibe := vibe s |}
  | Smell => {| sight := sight s; sound := sound s; smell := v; vibe := vibe s |}
  | Vibe => {| sight := sight s; sound := sound s; smell := smell s; vibe := v |}
  end.

(** [Object.entries(sensory)], in the key order of the interface and of the
    response schema that produced the object. *)
Definition Object_entries (s : Sensory) : list (string * string) :=
  [("sight", sight s); ("sound", sound s); ("smell", smell s); ("vibe", vibe s)].

(** ** The generative service, as the code sees it through @google/genai *)

(** Response schemas built from [Type.OBJECT], [Type.STRING], [Type.ARRAY]. *)
#[warnings="-register-all"] Inductive Schema : Type :=
| TypeSTRING (description_hint : option string)
| TypeARRAY (items : Schema)
| TypeOBJECT (properties : list (string * Schema)) (required : list string).

Record GenerationConfig : Type := {
  systemInstruction : string;
  responseMimeType : string;
  responseSchema : Schema
}.

(** The argument of [ai.models.generateContentStream]. *)
Record StreamRequest : Type := {
  stream_model : string;
  stream_contents : string;
  stream_config : GenerationConfig
}.

(** The argument of [ai.models.generateContent] as the image stages build
    it: one text part and an aspect ratio. *)
Record ImageRequest : Type := {
  image_model : string;
  image_text : string;
  aspectRatio : string
}.

(** What JavaScript can throw here. *)
Inductive Exn : Type :=
| Error (message : string)
| SyntaxError (source : string)
| ServiceError (message : string).

(** One increment of the stream: the value of [chunk.text]. *)
Definition Chunk : Type := option string.

(** The async iterable returned by [generateContentStream]: the increments
    it delivers and, when the stream breaks, the error that ends it. *)
Record ContentStream : Type := {
  stream_chunks : list Chunk;
  stream_failure : option Exn
}.

Record Blob : Type := {
  mimeType : string;
  data : string
}.

Record Part : Type := {
  part_text : option string;
  inlineData : option Blob
}.

Record Content : Type := {
  parts : option (list Part)
}.

Record Candidate : Type := {
  content : option Content
}.

Record GenerateContentResponse : Type := {
  candidates : option (list Candidate)
}.

Record GoogleGenAI : Type := {
  apiKey : string
}.

(** ** The world the code runs in *)

(** Everything observable the code does, in order. *)
Inductive Event : Type :=
| NetStream (key : string) (req : StreamRequest)
| NetImage (key : string) (req : ImageRequest)
| Callback (arg : string)
| ConsoleError (label : string) (e : option Exn)
| Saved (t : Transmission).

Record ActiveLead : Type := {
  active_lead : Lead;
  active_details : option LeadDetails
}.

Record World : Type := {
  technoir_api_key : option string;
  trace : list Event;
  state : GameState;
  activeLead : option ActiveLead;
  user : option User;
  hasApiKey : bool;
  showKeyModal : bool
}.

(** What the file does not define: the service behind the SDK and the
    clock.  Each answers from the history so far, so a service may answer
    the same request differently at different times. *)
Class Runtime : Type := {
  service_stream : list Event -> StreamRequest -> Exn + ContentStream;
  service_image : list Event -> ImageRequest -> Exn + GenerateContentResponse;
  Date_now : list Event -> Z;
  toLocaleDateString : list Event -> string
}.

(** [JSON.parse(text) as T]: the parsed value at its declared type, or a
    [SyntaxError]. *)
Class JSON (T : Type) : Type := {
  JSON_parse : string -> option T
}.

(** ** Promises: state and exceptions *)

Inductive Outcome (A : Type) : Type :=
| Returned (a : A)
| Thrown (e : Exn).
Arguments Returned {A} a.
Arguments Thrown {A} e.

Definition M (A : Type) : Type := World -> Outcome A * World.

Definition ret {A} (a : A) : M A := fun w => (Returned a, w).

Definition bind {A B} (c : M A) (k : A -> M B) : M B :=
  fun w =>
    match c w with
    | (Returned a, w') => k a w'
    | (Thrown e, w') => (Thrown e, w')
    end.

Definition throw {A} (e : Exn) : M A := fun w => (Thrown e, w).

(** [try { c } catch (e) { handler(e) }]. *)
Definition try_catch {A} (c : M A) (handler : Exn -> M A) : M A :=
  fun w =>
    match c w with
    | (Returned a, w') => (Returned a, w')
    | (Thrown e, w') => handler e w'
    end.

Declare Scope promise_scope.
Delimit Scope promise_scope with promise.
Notation "x <- c ;; k" := (bind c (fun x => k))
  (at level 61, c at next level, right associativity) : promise_scope.
Notation "c ;;; k" := (bind c (fun _ => k))
  (at level 61, right associativity) : promise_scope.
Open Scope promise_scope.

Definition get_world : M World := fun w => (Returned w, w).

Definition set_trace (w : World) (tr : list Event) : World :=
  {| technoir_api_key := technoir_api_key w; trace := tr; state := state w;
     activeLead := activeLead w; user := user w; hasApiKey := hasApiKey w;
     showKeyModal := showKeyModal w |}.

Definition emit (e : Event) : M unit :=
  fun w => (Returned tt, set_trace w (trace w ++ [e])%list).

Definition console_error (label : string) (e : option Exn) : M unit :=
  emit (ConsoleError label e).

Definition call_optional (cb : option (string -> M unit)) (arg : string) : M unit :=
  match cb with
  | Some f => f arg
  | None => ret tt
  end.

Definition set_state (w : World) (s : GameState) : World :=
  {| technoir_api_key := technoir_api_key w; trace := trace w; state := s;
     activeLead := activeLead w; user := user w; hasApiKey := hasApiKey w;
     showKeyModal := showKeyModal w |}.

Definition set_activeLead (w : World) (a : option ActiveLead) : World :=
  {| technoir_api_key := technoir_api_key w; trace := trace w; state := state w;
     activeLead := a; user := user w; hasApiKey := hasApiKey w;
     showKeyModal := showKeyModal w |}.

Definition set_showKeyModal (w : World) (b : bool) : World :=
  {| technoir_api_key := technoir_api_key w; trace := trace w; state := state w;
     activeLead := activeLead w; user := user w; hasApiKey := hasApiKey w;
     showKeyModal := b |}.

(** [`${n}`] for a non-negative integer. *)
Definition Number_toString (n : nat) : string :=
  NilEmpty.string_of_uint (Nat.to_uint n).

(** ** constants.ts *)

Definition SYSTEM_INSTRUCTION : string :=
  Text.lines
    [ "You are a specialized engine for generating Technoir RPG Transmissions.";
      "Your tone is gritty, hardboiled, and cinematic cyberpunk noir.";
      "Focus on high-contrast descriptions, sensory-rich details, and complex systemic connections." ].

(** ** services/gemini.ts *)

Section Gemini.

Context {runtime : Runtime}.
Context {json_title : JSON TitleAndSetting} {json_exposition : JSON Exposition}
        {json_leads : JSON LeadsData} {json_text : JSON LeadText}
        {json_indexed : JSON StringIndexed} {json_dossier : JSON DossierData}.

(** [localStorage.getItem('technoir_api_key') || undefined]. *)
Definition getApiKey : M (option string) :=
  w <- get_world ;;
  ret (match technoir_api_key w with
       | Some k => if Text.truthy k then Some k else None
       | None => None
       end).

Definition MissingCredential : Exn :=
  Error "Requested entity was not found: Missing API Key".

Definition getAI : M GoogleGenAI :=
  apiKey <- getApiKey ;;
  match apiKey with
  | Some k => if Text.truthy k then ret {| apiKey := k |} else throw MissingCredential
  | None => throw MissingCredential
  end.

(** [ai.models.generateContentStream(request)]: the one place where the
    streaming transport is invoked. *)
Definition models_generateContentStream (ai : GoogleGenAI) (req : StreamRequest)
  : M ContentStream :=
  w <- get_world ;;
  emit (NetStream (apiKey ai) req) ;;;
  match service_stream (trace w) req with
  | inl e => throw e
  | inr response => ret response
  end.

(** [ai.models.generateContent(request)]: the one place where the image
    transport is invoked. *)
Definition models_generateContent (ai : GoogleGenAI) (req : ImageRequest)
  : M GenerateContentResponse :=
  w <- get_world ;;
  emit (NetImage (apiKey ai) req) ;;;
  match service_image (trace w) req with
  | inl e => throw e
  | inr response => ret response
  end.

(** The body of [for await (const chunk of response)] in [streamJson]. *)
Fixpoint for_await (chunks : list Chunk) (onUpdate : option (string -> M unit))
                   (fullText : string) : M string :=
  match chunks with
  | [] => ret fullText
  | chunk :: rest =>
      match chunk with
      | Some text =>
          if Text.truthy text then
            let fullText := fullText ++ text in
            call_optional onUpdate fullText ;;;
            for_await rest onUpdate fullText
          else for_await rest onUpdate fullText
      | None => for_await rest onUpdate fullText
      end
  end.

Definition streamJson {T : Type} {json : JSON T}
    (model : string) (contents : string) (config : GenerationConfig)
    (onUpdate : option (string -> M unit)) : M T :=
  ai <- getAI ;;
  response <- models_generateContentStream ai
                {| stream_model := model; stream_contents := contents;
                   stream_config := config |} ;;
  fullText <- for_await (stream_chunks response) onUpdate EmptyString ;;
  match stream_failure response with
  | Some e => throw e
  | None =>
      let cleanText := Text.cleanText fullText in
      match JSON_parse cleanText with
      | Some value => ret value
      | None =>
          console_error "JSON parse error" (Some (SyntaxError cleanText)) ;;;
          throw (SyntaxError cleanText)
      end
  end.

Definition json_config (schema : Schema) : GenerationConfig :=
  {| systemInstruction := SYSTEM_INSTRUCTION;
     responseMimeType := "application/json";
     responseSchema := schema |}.

Definition generateTitleAndSetting (theme : string)
    (onUpdate : option (string -> M unit)) : M TitleAndSetting :=
  streamJson "gemini-3-flash-preview"
    (Text.lines
       [ "Theme: " ++ theme ++ ".";
         "    Generate a Title and a 2-sentence Setting Summary for a Technoir transmission.";
         "    The tone should be gritty, cyberpunk noir." ])
    (json_config
       (TypeOBJECT [ ("title", TypeSTRING None); ("settingSummary", TypeSTRING None) ]
                   [ "title"; "settingSummary" ]))
    onUpdate.

Definition generateExposition (theme title settingSummary : string)
    (onUpdate : option (string -> M unit)) : M Exposition :=
  streamJson "gemini-3-flash-preview"
    (Text.lines
       [ "Theme: " ++ theme ++ ".";
         "    Transmission Title: " ++ Text.quoted title ++ ".";
         "    Setting Summary: " ++ Text.quoted settingSummary ++ ".";
         "    ";
         "    Based on the above, create detailed Exposition parameters (1 paragraph each) for:";
         "    1. Technology (Unique tech quirks of this setting)";
         "    2. Society (Class struggle, crime, or culture)";
         "    3. Environment (Physical atmosphere, weather, architecture)" ])
    (json_config
       (TypeOBJECT [ ("technology", TypeSTRING None); ("society", TypeSTRING None);
                     ("environment", TypeSTRING None) ]
                   [ "technology"; "society"; "environment" ]))
    onUpdate.

Definition leads_prompt (title summary : string) (exposition : Exposition) : string :=
  Text.lines
    [ "Context: A Technoir setting titled " ++ Text.quoted title ++ ".";
      "    Summary: " ++ summary;
      "    Technology: " ++ technology exposition;
      "    Society: " ++ society exposition;
      "    Environment: " ++ environment exposition;
      "    ";
      "    Generate 36 leads: Exactly 6 leads for each of these 6 categories: Connections, Events, Locations, Objects, Threats, Factions.";
      "    Each lead name should be 2-3 words. Description should be exactly 1 evocative sentence that ties into the exposition provided." ].

Definition leads_schema : Schema :=
  TypeOBJECT
    [ ("leads",
       TypeARRAY
         (TypeOBJECT
            [ ("id", TypeSTRING None); ("name", TypeSTRING None);
              ("description", TypeSTRING None);
              ("category",
               TypeSTRING (Some "Must be one of: Connections, Events, Locations, Objects, Threats, Factions")) ]
            [ "id"; "name"; "description"; "category" ])) ]
    [ "leads" ].

Definition generateLeads (theme title summary : string) (exposition : Exposition)
    (onUpdate : option (string -> M unit)) : M (list Lead) :=
  data <- streamJson "gemini-3-flash-preview"
            (leads_prompt title summary exposition)
            (json_config leads_schema)
            onUpdate ;;
  ret (match data_leads data with
       | Some found => found
       | None => []
       end).

(** [response.candidates?.[0]?.content?.parts || []]. *)
Definition response_parts (response : GenerateContentResponse) : list Part :=
  match candidates response with
  | Some (first :: _) =>
      match content first with
      | Some c => match parts c with Some ps => ps | None => [] end
      | None => []
      end
  | _ => []
  end.

(** The loop over the parts: the first part with [inlineData] ends it. *)
Fixpoint first_inline_image (ps : list Part) : option string :=
  match ps with
  | [] => None
  | part :: rest =>
      match inlineData part with
      | Some blob => Some ("data:image/png;base64," ++ data blob)
      | None => first_inline_image rest
      end
  end.

Definition header_prompt (title summary : string) (exposition : Exposition) : string :=
  Text.lines
    [ "Cinematic wide-shot cyberpunk noir landscape for a setting titled " ++ Text.quoted title ++ ". ";
      "        Context: " ++ summary ++ ". ";
      "        Visual details: " ++ environment exposition ++ ". ";
      "        Neon rain, heavy atmosphere, hyper-detailed, 8k resolution, cinematic lighting." ].

Definition generateTransmissionHeader (title summary : string) (exposition : Exposition)
  : M (option string) :=
  try_catch
    (ai <- getAI ;;
     response <- models_generateContent ai
                   {| image_model := "gemini-2.5-flash-image";
                      image_text := header_prompt title summary exposition;
                      aspectRatio := "16:9" |} ;;
     ret (first_inline_image (response_parts response)))
    (fun e => console_error "Header image generation failed" (Some e) ;;; ret None).

Definition sensory_schema : Schema :=
  TypeOBJECT [ ("sight", TypeSTRING None); ("sound", TypeSTRING None);
               ("smell", TypeSTRING None); ("vibe", TypeSTRING None) ]
             [ "sight"; "sound"; "smell"; "vibe" ].

Definition generateLeadInspectionText (lead : Lead) (title summary : string)
    (exposition : Exposition) : M LeadText :=
  streamJson "gemini-3-flash-preview"
    (Text.lines
       [ "Context: Technoir setting " ++ Text.quoted title ++ ".";
         "    Summary: " ++ summary;
         "    Exposition Data:";
         "    - Tech: " ++ technology exposition;
         "    - Society: " ++ society exposition;
         "    - Environment: " ++ environment exposition;
         EmptyString;
         "    Subject Node:";
         "    - Name: " ++ name lead;
         "    - Category: " ++ Category_label (category lead);
         "    - Descriptor: " ++ description lead;
         EmptyString;
         "    Task: Generate a high-fidelity investigative dossier.";
         "    1. Sensory Data: 4 distinct sensory inputs (Sight, Sound, Smell, Vibe) that immediately establish the scene/subject.";
         "    2. Expanded Description: A hardboiled, atmospheric paragraph expanding on the "
           ++ Text.quoted "Descriptor" ++ " and integrating the " ++ Text.quoted "Exposition Data"
           ++ ". It should feel like a GM describing the node to players." ])
    (json_config
       (TypeOBJECT [ ("sensory", sensory_schema); ("expandedDescription", TypeSTRING None) ]
                   [ "sensory"; "expandedDescription" ]))
    None.

(** The [switch (lead.category)] of [generateLeadInspectionImage]. *)
Definition inspection_focusDirective (lead : Lead) : string :=
  match category lead with
  | Locations =>
      "Wide or medium shot of the environment/location. Architecture, mood, lighting. NO central character. Environmental focus."
  | Objects =>
      "Close-up product shot or macro detail of the object. High texture. Object is the sole subject. No people."
  | Events =>
      "Dynamic scene, active situation, implied motion. Narrative focus."
  | _ =>
      "Character portrait or group shot. Distinct cyberpunk fashion, expressive, moody lighting. Focus on the individual(s)."
  end.

Definition style_line : string :=
  "          Style: Gritty, shadow-heavy, high contrast, hyper-detailed, 8k resolution, cinematic lighting, volumetric fog.".

Definition inspection_image_prompt (lead : Lead) (title summary sensorySight : string)
  : string :=
  let focusDirective := inspection_focusDirective lead in
  Text.lines
    [ "Cinematic cyberpunk noir visualization.";
      "          Subject: " ++ Text.quoted (name lead);
      "          Descriptor: " ++ description lead;
      "          Category: " ++ Category_label (category lead);
      "          ";
      "          Context: " ++ title ++ ". " ++ summary;
      "          Visual Flavor: " ++ sensorySight;
      "          ";
      "          Directive: " ++ focusDirective;
      style_line ].

Definition generateLeadInspectionImage (lead : Lead) (title summary sensorySight : string)
  : M (option string) :=
  try_catch
    (ai <- getAI ;;
     response <- models_generateContent ai
                   {| image_model := "gemini-2.5-flash-image";
                      image_text := inspection_image_prompt lead title summary sensorySight;
                      aspectRatio := "1:1" |} ;;
     ret (first_inline_image (response_parts response)))
    (fun e => console_error "Lead image generation failed" (Some e) ;;; ret None).

(** [Object.entries(currentSensory).filter(([key]) => key !== fieldName)
      .map(([key, val]) => `${key}: ${val}`).join('\n')]. *)
Definition otherFields (fieldName : SensoryField) (currentSensory : Sensory) : string :=
  Text.join Text.nl
    (map (fun entry => fst entry ++ ": " ++ snd entry)
       (filter (fun entry => negb (fst entry =? SensoryField_key fieldName))
          (Object_entries currentSensory))).

Definition sensory_field_prompt (lead : Lead) (fieldName : SensoryField)
    (currentSensory : Sensory) (exposition : Exposition) : string :=
  Text.lines
    [ "Context: Technoir lead " ++ Text.quoted (name lead)
        ++ " (" ++ Category_label (category lead) ++ ").";
      "    Description: " ++ description lead;
      EmptyString;
      "    Exposition Context:";
      "    - Tech: " ++ technology exposition;
      "    - Society: " ++ society exposition;
      "    - Environment: " ++ environment exposition;
      EmptyString;
      "    Existing sensory data:";
      "    " ++ otherFields fieldName currentSensory;
      EmptyString;
      "    Task: Generate a new " ++ SensoryField_key fieldName
        ++ " sensory input that complements the existing sensory data and fits the exposition context. Keep it concise and evocative." ].

Definition regenerateSensoryField (lead : Lead) (fieldName : SensoryField)
    (currentSensory : Sensory) (exposition : Exposition) : M string :=
  result <- streamJson (T := StringIndexed) "gemini-3-flash-preview"
    (sensory_field_prompt lead fieldName currentSensory exposition)
    (json_config
       (TypeOBJECT [ (SensoryField_key fieldName, TypeSTRING None) ]
                   [ SensoryField_key fieldName ]))
    None ;;
  ret (result (SensoryField_key fieldName)).

Definition regenerateExpandedDescription (lead : Lead) (sensory : Sensory)
    (exposition : Exposition) : M string :=
  result <- streamJson "gemini-3-flash-preview"
    (Text.lines
       [ "Context: Technoir lead " ++ Text.quoted (name lead)
           ++ " (" ++ Category_label (category lead) ++ ").";
         "    Description: " ++ description lead;
         EmptyString;
         "    Exposition Context:";
         "    - Tech: " ++ technology exposition;
         "    - Society: " ++ society exposition;
         "    - Environment: " ++ environment exposition;
         EmptyString;
         "    Sensory Data:";
         "    - Sight: " ++ sight sensory;
         "    - Sound: " ++ sound sensory;
         "    - Smell: " ++ smell sensory;
         "    - Vibe: " ++ vibe sensory;
         EmptyString;
         "    Task: Generate a hardboiled, atmospheric paragraph (expanded description) that integrates the sensory data and exposition. It should feel like a GM describing this node to players in a Technoir game." ])
    (json_config
       (TypeOBJECT [ ("expandedDescription", TypeSTRING None) ] [ "expandedDescription" ]))
    None ;;
  ret (data_expandedDescription result).

(** The [switch (lead.category)] of [regenerateLeadImage]. *)
Definition regeneration_focusDirective (lead : Lead) : string :=
  match category lead with
  | Locations =>
      "Wide or medium shot of the environment/location. Architecture, mood, lighting. NO central character. Environmental focus."
  | Objects =>
      "Close-up product shot or macro detail of the object. High texture. Object is the sole subject. No people."
  | Events =>
      "Dynamic scene, active situation, implied motion. Narrative focus."
  | _ =>
      "Character portrait or group shot. Distinct cyberpunk fashion, expressive, moody lighting. Focus on the individual(s)."
  end.

Definition regeneration_image_prompt (lead : Lead) (sensory : Sensory)
    (expandedDescription : string) (exposition : Exposition) : string :=
  let focusDirective := regeneration_focusDirective lead in
  Text.lines
    [ "Cinematic cyberpunk noir visualization.";
      "          Subject: " ++ Text.quoted (name lead);
      "          Category: " ++ Category_label (category lead);
      "          Description: " ++ description lead;
      EmptyString;
      "          Environmental Context:";
      "          - Technology: " ++ technology exposition;
      "          - Environment: " ++ environment exposition;
      EmptyString;
      "          Visual Details:";
      "          - Sight: " ++ sight sensory;
      "          - Sound: " ++ sound sensory;
      "          - Smell: " ++ smell sensory;
      "          - Vibe: " ++ vibe sensory;
      EmptyString;
      "          Scene Description: " ++ expandedDescription;
      EmptyString;
      "          Directive: " ++ focusDirective;
      style_line ].

Definition regenerateLeadImage (lead : Lead) (sensory : Sensory)
    (expandedDescription : string) (exposition : Exposition) : M (option string) :=
  try_catch
    (ai <- getAI ;;
     response <- models_generateContent ai
                   {| image_model := "gemini-2.5-flash-image";
                      image_text :=
                        regeneration_image_prompt lead sensory expandedDescription exposition;
                      aspectRatio := "1:1" |} ;;
     ret (first_inline_image (response_parts response)))
    (fun e => console_error "Lead image regeneration failed" (Some e) ;;; ret None).

(** [Date.now()] and [new Date().toLocaleDateString('en-US')]. *)
Definition now : M Z := w <- get_world ;; ret (Date_now (trace w)).
Definition today : M string := w <- get_world ;; ret (toLocaleDateString (trace w)).

(** One turn of the [for] loop of [generateFullTransmission]: the lead at
    index [i] of [total], given the [detailedLeads] pushed so far. *)
Definition process_node (onLog : string -> M unit) (title settingSummary : string)
    (exposition : Exposition) (total i : nat) (lead : Lead)
    (detailedLeads : list Lead) : M (list Lead) :=
  onLog (">> PROCESSING NODE [" ++ Number_toString (i + 1) ++ "/"
           ++ Number_toString total ++ "]: " ++ name lead ++ "...") ;;;
  try_catch
    (textDetails <- generateLeadInspectionText lead title settingSummary exposition ;;
     imageUrl <- generateLeadInspectionImage lead title settingSummary
                   (sight (picked_sensory textDetails)) ;;
     ret (detailedLeads
            ++ [ with_details lead
                   (Some {| sensory := picked_sensory textDetails;
                            expandedDescription := picked_expandedDescription textDetails;
                            imageUrl := imageUrl |}) ])%list)
    (fun e =>
       console_error ("Failed to process lead " ++ name lead) (Some e) ;;;
       ret (detailedLeads ++ [ lead ])%list).

(** [for (let i = 0; i < leads.length; i++)], started at index [i] with
    [remaining] the leads from [i] on. *)
Fixpoint process_nodes (onLog : string -> M unit) (title settingSummary : string)
    (exposition : Exposition) (total i : nat) (remaining : list Lead)
    (detailedLeads : list Lead) : M (list Lead) :=
  match remaining with
  | [] => ret detailedLeads
  | lead :: rest =>
      detailedLeads <- process_node onLog title settingSummary exposition total i lead
                         detailedLeads ;;
      process_nodes onLog title settingSummary exposition total (S i) rest detailedLeads
  end.

Definition generateFullTransmission (theme : string) (onLog : string -> M unit)
  : M Transmission :=
  onLog ">> GENERATING STRUCTURAL FRAMEWORK..." ;;;
  structure <- generateTitleAndSetting theme None ;;
  let title := picked_title structure in
  let settingSummary := picked_settingSummary structure in
  onLog (">> STRUCTURE ACQUIRED: " ++ title) ;;;
  onLog ">> DOWNLOADING EXPOSITION..." ;;;
  exposition <- generateExposition theme title settingSummary None ;;
  onLog ">> COMPILING LEAD NETWORK..." ;;;
  leads <- generateLeads theme title settingSummary exposition None ;;
  onLog ">> RENDERING ENVIRONMENTAL VISUALS..." ;;;
  headerImageUrl <- generateTransmissionHeader title settingSummary exposition ;;
  id <- now ;;
  createdAt <- today ;;
  let transmission :=
    {| transmission_id := id; createdAt := createdAt; title := title;
       settingSummary := settingSummary; exposition := exposition;
       headerImageUrl := headerImageUrl; leads := leads |} in
  onLog (">> INITIATING DEEP SCAN OF " ++ Number_toString (length leads)
           ++ " NODES. THIS WILL TAKE TIME...") ;;;
  detailedLeads <- process_nodes onLog title settingSummary exposition
                     (length leads) 0 leads [] ;;
  onLog ">> TRANSMISSION PACKAGE COMPLETE." ;;;
  ret (with_leads transmission detailedLeads).

End Gemini.

(** ** App.tsx: the lead handlers of the viewer *)

Section App.

Context {runtime : Runtime}.
Context {json_indexed : JSON StringIndexed} {json_dossier : JSON DossierData}.

(** [saveTransmission] of services/db: a write to the local database whose
    promise the handlers do not await. *)
Definition saveTransmission (t : Transmission) : M unit := emit (Saved t).

(** [setState(prev => ...)] with an updater that may save on the way. *)
Definition setState (updater : GameState -> M GameState) : M unit :=
  w <- get_world ;;
  next <- updater (state w) ;;
  fun w' => (Returned tt, set_state w' next).

Definition setActiveLead (a : ActiveLead) : M unit :=
  fun w => (Returned tt, set_activeLead w (Some a)).

Definition setShowKeyModal (b : bool) : M unit :=
  fun w => (Returned tt, set_showKeyModal w b).

(** [const canGenerate = user || hasApiKey]. *)
Definition canGenerate (w : World) : bool :=
  match user w with Some _ => true | None => hasApiKey w end.

(** The lead that [handleUpdateLead] stores for [updatedLead], given the
    result of [leads.find(l => l.id === updatedLead.id)]. *)
Definition finalLead (existingLead : option Lead) (updatedLead : Lead) : Lead :=
  match existingLead with
  | Some existing =>
      if negb (name existing =? name updatedLead)
         || negb (description existing =? description updatedLead)
      then with_details updatedLead None
      else with_details updatedLead (details existing)
  | None => with_details updatedLead None
  end.

Definition handleUpdateLead (updatedLead : Lead) : M unit :=
  setState (fun prev =>
    match transmission prev with
    | None => ret prev
    | Some current =>
        let existingLead :=
          find (fun l => id l =? id updatedLead) (leads current) in
        let finalLead := finalLead existingLead updatedLead in
        let newLeads :=
          map (fun l => if id l =? id finalLead then finalLead else l) (leads current) in
        let updatedTransmission := with_leads current newLeads in
        saveTransmission updatedTransmission ;;;
        ret (with_transmission prev (Some updatedTransmission))
    end).

(** The [updatedDetails] that [handleRegenerateDossierField] computes from
    [lead.details] before it touches the state. *)
Definition regenerate_details (lead : Lead) (lead_details : LeadDetails)
    (exposition : Exposition) (fieldType : FieldType)
    (sensoryField : option SensoryField) : M LeadDetails :=
  let updatedDetails := lead_details in
  match fieldType, sensoryField with
  | FieldSensory, Some field =>
      newValue <- regenerateSensoryField lead field (sensory lead_details) exposition ;;
      ret (with_sensory updatedDetails (with_field (sensory lead_details) field newValue))
  | FieldSensory, None => ret updatedDetails
  | FieldDossier, _ =>
      newDescription <- regenerateExpandedDescription lead (sensory lead_details)
                          exposition ;;
      ret (with_expandedDescription updatedDetails newDescription)
  | FieldImage, _ =>
      newImageUrl <- regenerateLeadImage lead (sensory lead_details)
                       (expandedDescription lead_details) exposition ;;
      match newImageUrl with
      | Some url =>
          if Text.truthy url then ret (with_imageUrl updatedDetails (Some url))
          else ret updatedDetails
      | None => ret updatedDetails
      end
  end.

Definition handleRegenerateDossierField (lead : Lead) (fieldType : FieldType)
    (sensoryField : option SensoryField) : M unit :=
  w <- get_world ;;
  if negb (canGenerate w) then setShowKeyModal true
  else
    match details lead, transmission (state w) with
    | Some lead_details, Some state_transmission =>
        try_catch
          (updatedDetails <- regenerate_details lead lead_details
                               (exposition state_transmission) fieldType sensoryField ;;
           setState (fun prev =>
             match transmission prev with
             | None => ret prev
             | Some current =>
                 let updatedTransmission :=
                   with_leads current
                     (map (fun l => if id l =? id lead
                                    then with_details l (Some updatedDetails) else l)
                          (leads current)) in
                 saveTransmission updatedTransmission ;;;
                 ret (with_transmission prev (Some updatedTransmission))
             end) ;;;
           setActiveLead {| active_lead := with_details lead (Some updatedDetails);
                            active_details := Some updatedDetails |})
          (fun e => console_error "Regeneration failed:" (Some e))
    | _, _ => ret tt
    end.

End App.

(** ** What a run lets one observe *)

Module Observe.

(** The credential [getApiKey] resolves in a world, if any. *)
Definition credential (w : World) : option string :=
  match technoir_api_key w with
  | Some k => if Text.truthy k then Some k else None
  | None => None
  end.

Definition has_credential (w : World) : bool :=
  match credential w with Some _ => true | None => false end.

Definition add_events (w : World) (es : list Event) : World :=
  set_trace w (trace w ++ es)%list.

Definition is_transport (e : Event) : bool :=
  match e with
  | NetStream _ _ | NetImage _ _ => true
  | _ => false
  end.

(** The invocations of the transport in a trace. *)
Definition transport_calls (tr : list Event) : list Event := filter is_transport tr.

(** A callback that does nothing but record its argument. *)
Definition recording : string -> M unit := fun arg => emit (Callback arg).

(** The arguments of the recorded callback invocations, in order. *)
Definition callback_args (tr : list Event) : list string :=
  flat_map (fun e => match e with Callback arg => [arg] | _ => [] end) tr.

(** A callback that is advisory: it returns and leaves the stored key alone. *)
Definition advisory (cb : string -> M unit) : Prop :=
  forall arg w, exists w',
    cb arg w = (Returned tt, w') /\ technoir_api_key w' = technoir_api_key w.

(** An optional callback that is advisory when it is given. *)
Definition advisory_if_given (onUpdate : option (string -> M unit)) : Prop :=
  forall cb, onUpdate = Some cb -> advisory cb.

Definition chunk_text (c : Chunk) : string :=
  match c with Some text => text | None => EmptyString end.

(** The concatenation of all increments of a stream. *)
Definition full_text (chunks : list Chunk) : string :=
  String.concat EmptyString (map chunk_text chunks).

(** The accumulated string after each of the given increments, starting
    from [acc]. *)
Fixpoint accumulated (acc : string) (increments : list string) : list string :=
  match increments with
  | [] => []
  | text :: rest => (acc ++ text) :: accumulated (acc ++ text) rest
  end.

(** The increments that carry text. *)
Definition texts (chunks : list Chunk) : list string :=
  filter Text.truthy (map chunk_text chunks).

(** One accumulated string per increment, as the claim on the progress
    callback reads. *)
Definition accumulated_after_every_increment (chunks : list Chunk) : list string :=
  accumulated EmptyString (map chunk_text chunks).

(** What [streamJson] makes of the service's reply to its request. *)
Definition stream_result {T : Type} {json : JSON T} (reply : Exn + ContentStream)
  : Outcome T :=
  match reply with
  | inl e => Thrown e
  | inr response =>
      match stream_failure response with
      | Some e => Thrown e
      | None =>
          let cleanText := Text.cleanText (full_text (stream_chunks response)) in
          match JSON_parse cleanText with
          | Some value => Returned value
          | None => Thrown (SyntaxError cleanText)
          end
      end
  end.

(** What is left of [streamJson] once the stream has been read. *)
Definition finish {T : Type} {json : JSON T} (response : ContentStream) (w : World)
  : Outcome T * World :=
  match stream_failure response with
  | Some e => (Thrown e, w)
  | None =>
      let cleanText := Text.cleanText (full_text (stream_chunks response)) in
      match JSON_parse cleanText with
      | Some value => (Returned value, w)
      | None =>
          (Thrown (SyntaxError cleanText),
           add_events w [ConsoleError "JSON parse error" (Some (SyntaxError cleanText))])
      end
  end.

(** What an image stage makes of the reply to its request in world [w]. *)
Definition image_result {runtime : Runtime} (w : World) (req : ImageRequest)
  : option string :=
  match credential w with
  | None => None
  | Some _ =>
      match service_image (trace w) req with
      | inl _ => None
      | inr response => first_inline_image (response_parts response)
      end
  end.


Definition Sensory_get (f : SensoryField) (s : Sensory) : string :=
  match f with
  | Sight => sight s
  | Sound => sound s
  | Smell => smell s
  | Vibe => vibe s
  end.

Definition SensoryField_eqb (f g : SensoryField) : bool :=
  match f, g with
  | Sight, Sight | Sound, Sound | Smell, Smell | Vibe, Vibe => true
  | _, _ => false
  end.

(** The three sensory fields other than [f], in key order. *)
Definition other_fields (f : SensoryField) : list SensoryField :=
  filter (fun g => negb (SensoryField_eqb g f)) [Sight; Sound; Smell; Vibe].

End Observe.

(** ** Fixtures: concrete services, parsers and worlds *)

Module Fixture.

(** A parser that accepts exactly one text. *)
Definition only {T : Type} (text : string) (value : T) : JSON T :=
  {| JSON_parse := fun s => if s =? text then Some value else None |}.

(** A parser that accepts nothing. *)
Definition nothing {T : Type} : JSON T := {| JSON_parse := fun _ => None |}.

Definition blank_state : GameState :=
  {| transmission := None; status := setup; error := None |}.

(** A fresh page: no key stored, nothing done yet. *)
Definition blank : World :=
  {| technoir_api_key := None; trace := []; state := blank_state;
     activeLead := None; user := None; hasApiKey := false; showKeyModal := false |}.

(** The same page after [handleManualKeySubmit("k-0123456789")]. *)
Definition keyed : World :=
  {| technoir_api_key := Some "k-0123456789"; trace := []; state := blank_state;
     activeLead := None; user := None; hasApiKey := true; showKeyModal := false |}.

(** A service that is down. *)
Definition offline : Runtime :=
  {| service_stream := fun _ _ => inl (ServiceError "offline");
     service_image := fun _ _ => inl (ServiceError "offline");
     Date_now := fun _ => 0%Z;
     toLocaleDateString := fun _ => "1/1/2026" |}.

Definition png (bytes : string) : Part :=
  {| part_text := None; inlineData := Some {| mimeType := "image/png"; data := bytes |} |}.

Definition caption (text : string) : Part :=
  {| part_text := Some text; inlineData := None |}.

Definition one_candidate (ps : list Part) : GenerateContentResponse :=
  {| candidates := Some [ {| content := Some {| parts := Some ps |} |} ] |}.

(** A service that streams the given increments for every text request and
    answers every image request with the given parts. *)
Definition scripted (chunks : list Chunk) (ps : list Part) : Runtime :=
  {| service_stream := fun _ _ => inr {| stream_chunks := chunks; stream_failure := None |};
     service_image := fun _ _ => inr (one_candidate ps);
     Date_now := fun _ => 1700000000000%Z;
     toLocaleDateString := fun _ => "11/14/2023" |}.

Definition expo : Exposition :=
  {| technology := "Wetware"; society := "Clans"; environment := "Rain" |}.

Definition senses : Sensory :=
  {| sight := "A"; sound := "B"; smell := "C"; vibe := "D" |}.

Definition dossier : LeadDetails :=
  {| sensory := senses; expandedDescription := "E"; imageUrl := Some "F" |}.

Definition lead_with (i n d : string) (c : Category) (ds : option LeadDetails) : Lead :=
  {| id := i; name := n; description := d; category := c; details := ds |}.

Definition premise : TitleAndSetting :=
  {| picked_title := "Neon Requiem"; picked_settingSummary := "It rains. Nobody is clean." |}.

Definition scan : LeadText :=
  {| picked_sensory := senses; picked_expandedDescription := "E" |}.

(** Three roster leads as the roster stage delivers them. *)
Definition dock : Lead := lead_with "loc-1" "Dock 9" "A pier that floods at noon." Locations None.
Definition ghost : Lead := lead_with "con-1" "Ghost" "A broker nobody has met." Connections None.
Definition ice : Lead := lead_with "obj-1" "Black Ice" "A countermeasure that bites." Objects None.
Definition roster3 : list Lead := [dock; ghost; ice].

(** A service that streams the text X for every text request except the
    detail request for the lead named Ghost, which it refuses; it answers
    image requests with a caption and one image. *)
Definition haunted : Runtime :=
  {| service_stream := fun _ req =>
       match index 0 "- Name: Ghost" (stream_contents req) with
       | Some _ => inl (ServiceError "503")
       | None => inr {| stream_chunks := [Some "X"]; stream_failure := None |}
       end;
     service_image := fun _ _ => inr (one_candidate [caption "here"; png "AAAA"]);
     Date_now := fun _ => 1700000000000%Z;
     toLocaleDateString := fun _ => "11/14/2023" |}.

(** A roster of 35 leads, all of one category. *)
Definition roster35 : list Lead :=
  map (fun n => lead_with (Number_toString n) "Node" "One line." Threats None) (seq 1 35).

(** A fenced response delivered in four increments, one of them without
    text. *)
Definition fenced_chunks : list Chunk :=
  [Some Text.fence_json_nl; Some "ROSTER"; None; Some (Text.nl ++ Text.fence)].

(** A stream with an empty increment and an increment without text. *)
Definition sparse_chunks : list Chunk := [Some "{"; Some EmptyString; None; Some "}"].

(** A transmission on screen: one lead with a dossier, one without. *)
Definition detailed_ghost : Lead :=
  lead_with "con-1" "Ghost" "A broker nobody has met." Connections (Some dossier).

Definition on_screen : Transmission :=
  {| transmission_id := 1700000000000%Z; createdAt := "11/14/2023";
     title := "Neon Requiem"; settingSummary := "It rains. Nobody is clean.";
     exposition := expo; headerImageUrl := None; leads := [dock; detailed_ghost] |}.

(** A service whose stream breaks after two increments. *)
Definition breaking : Runtime :=
  {| service_stream := fun _ _ =>
       inr {| stream_chunks := [Some "{"; Some "xy"];
              stream_failure := Some (ServiceError "reset") |};
     service_image := fun _ _ => inl (ServiceError "reset");
     Date_now := fun _ => 0%Z;
     toLocaleDateString := fun _ => "1/1/2026" |}.

Definition viewer : World :=
  {| technoir_api_key := Some "k-0123456789"; trace := [];
     state := {| transmission := Some on_screen; status := viewing; error := None |};
     activeLead := None; user := None; hasApiKey := true; showKeyModal := false |}.

End Fixture.

(** ** App.tsx: the stored key *)

Section AppKey.

Definition set_key (w : World) (k : option string) : World :=
  {| technoir_api_key := k; trace := trace w; state := state w;
     activeLead := activeLead w; user := user w; hasApiKey := hasApiKey w;
     showKeyModal := showKeyModal w |}.

Definition set_hasApiKey (w : World) (b : bool) : World :=
  {| technoir_api_key := technoir_api_key w; trace := trace w; state := state w;
     activeLead := activeLead w; user := user w; hasApiKey := b;
     showKeyModal := showKeyModal w |}.

(** [localStorage.getItem], [setItem] and [removeItem] at the key
    ['technoir_api_key']. *)
Definition localStorage_getItem : M (option string) :=
  w <- get_world ;; ret (technoir_api_key w).

Definition localStorage_setItem (value : string) : M unit :=
  fun w => (Returned tt, set_key w (Some value)).

Definition localStorage_removeItem : M unit :=
  fun w => (Returned tt, set_key w None).

Definition setHasManualKey (b : bool) : M unit :=
  fun w => (Returned tt, set_hasApiKey w b).

(** [if (k && k.length > 10) setHasManualKey(true)]. *)
Definition checkManualKey : M unit :=
  k <- localStorage_getItem ;;
  match k with
  | Some k =>
      if Text.truthy k && Nat.ltb 10 (String.length k)
      then setHasManualKey true
      else ret tt
  | None => ret tt
  end.

Definition handleManualKeySubmit (key : string) : M unit :=
  localStorage_setItem key ;;;
  setHasManualKey true ;;;
  setShowKeyModal false.

Definition handleDisconnectKey : M unit :=
  localStorage_removeItem ;;;
  setHasManualKey false.

(** The [onUpdate] that the viewer hands to [LeadDossier]: the edited
    lead replaces the stored one as it is. *)
Definition LeadDossier_onUpdate (updatedLead : Lead) : M unit :=
  setState (fun prev =>
    match transmission prev with
    | None => ret prev
    | Some current =>
        let updatedTransmission :=
          with_leads current
            (map (fun l => if id l =? id updatedLead then updatedLead else l)
               (leads current)) in
        saveTransmission updatedTransmission ;;;
        ret (with_transmission prev (Some updatedTransmission))
    end) ;;;
  setActiveLead {| active_lead := updatedLead; active_details := details updatedLead |}.

End AppKey.

(** ** App.tsx: opening a dossier *)

(** The viewer state that [handleInspectLead] touches beside the page:
    whether the image is revealed, and the reveals that [setTimeout] has
    scheduled, each with its delay in milliseconds. *)
Record Screen : Type := {
  page : World;
  isImageRevealed : bool;
  scheduled_reveals : list nat
}.

Definition V (A : Type) : Type := Screen -> Outcome A * Screen.

Definition retV {A} (a : A) : V A := fun s => (Returned a, s).

Definition bindV {A B} (c : V A) (k : A -> V B) : V B :=
  fun s =>
    match c s with
    | (Returned a, s') => k a s'
    | (Thrown e, s') => (Thrown e, s')
    end.

Definition try_catchV {A} (c : V A) (handler : Exn -> V A) : V A :=
  fun s =>
    match c s with
    | (Returned a, s') => (Returned a, s')
    | (Thrown e, s') => handler e s'
    end.

(** A promise of the page, run on the screen. *)
Definition on_page {A} (c : M A) : V A :=
  fun s =>
    let (o, w) := c (page s) in
    (o, {| page := w; isImageRevealed := isImageRevealed s;
           scheduled_reveals := scheduled_reveals s |}).

Definition setIsImageRevealed (b : bool) : V unit :=
  fun s => (Returned tt, {| page := page s; isImageRevealed := b;
                            scheduled_reveals := scheduled_reveals s |}).

(** [setTimeout(() => setIsImageRevealed(true), delay)]. *)
Definition setTimeout_reveal (delay : nat) : V unit :=
  fun s => (Returned tt, {| page := page s; isImageRevealed := isImageRevealed s;
                            scheduled_reveals := (scheduled_reveals s ++ [delay])%list |}).

Declare Scope screen_scope.
Delimit Scope screen_scope with screen.
Notation "x <- c ;; k" := (bindV c (fun x => k))
  (at level 61, c at next level, right associativity) : screen_scope.
Notation "c ;;; k" := (bindV c (fun _ => k))
  (at level 61, right associativity) : screen_scope.

Section Inspect.

Context {runtime : Runtime}.
Context {json_text : JSON LeadText}.

(** [{ lead }]: an active lead without details. *)
Definition undetailed (lead : Lead) : ActiveLead :=
  {| active_lead := lead; active_details := None |}.

(** [handleInspectLead], with [t] the transmission the viewer rendered. *)
Definition handleInspectLead (t : Transmission) (lead : Lead) : V unit :=
  (match details lead with
   | Some lead_details =>
       on_page (setActiveLead {| active_lead := lead;
                                 active_details := Some lead_details |}) ;;;
       setTimeout_reveal 100
   | None =>
       w <- on_page get_world ;;
       if negb (canGenerate w) then on_page (setShowKeyModal true)
       else
         on_page (setActiveLead (undetailed lead)) ;;;
         setIsImageRevealed false ;;;
         try_catchV
           (textDetails <- on_page (generateLeadInspectionText lead (title t)
                                      (settingSummary t) (exposition t)) ;;
            let leadWithText :=
              with_details lead
                (Some {| sensory := picked_sensory textDetails;
                         expandedDescription := picked_expandedDescription textDetails;
                         imageUrl := None |}) in
            on_page (setActiveLead {| active_lead := leadWithText;
                                      active_details := details leadWithText |}) ;;;
            imageUrl <- on_page (generateLeadInspectionImage lead (title t)
                                   (settingSummary t)
                                   (sight (picked_sensory textDetails))) ;;
            let finalDetails :=
              {| sensory := picked_sensory textDetails;
                 expandedDescription := picked_expandedDescription textDetails;
                 imageUrl := imageUrl |} in
            on_page (setState (fun prev =>
              match transmission prev with
              | None => ret prev
              | Some current =>
                  let updatedTransmission :=
                    with_leads current
                      (map (fun l => if id l =? id lead
                                     then with_details l (Some finalDetails) else l)
                         (leads current)) in
                  (saveTransmission updatedTransmission ;;;
                   ret (with_transmission prev (Some updatedTransmission)))%promise
              end)) ;;;
            on_page (setActiveLead {| active_lead := with_details lead (Some finalDetails);
                                      active_details := Some finalDetails |}) ;;;
            setTimeout_reveal 300)
           (fun e => on_page (console_error EmptyString (Some e)))
   end)%screen.

End Inspect.

(** ** More to observe *)

Module Watch.

(** The transmissions handed to [saveTransmission], in order. *)
Definition saved_transmissions (tr : list Event) : list Transmission :=
  flat_map (fun e => match e with Saved t => [t] | _ => [] end) tr.

(** The console errors of a trace, in order. *)
Definition console_errors (tr : list Event) : list (string * option Exn) :=
  flat_map (fun e => match e with ConsoleError label err => [(label, err)] | _ => [] end) tr.


(** The lead stored under an id, as [leads.find] sees it. *)
Definition lookup (i : string) (w : World) : option Lead :=
  match transmission (state w) with
  | Some t => find (fun l => id l =? i) (leads t)
  | None => None
  end.

(** Events among which no callback is invoked and nothing is saved. *)
Definition quiet (es : list Event) : Prop :=
  Observe.callback_args es = [] /\ saved_transmissions es = [].




(** Whether the stored key is longer than ten characters. *)
Definition long_key (w : World) : bool :=
  match technoir_api_key w with
  | Some k => Nat.ltb 10 (String.length k)
  | None => false
  end.

Definition signed_in (w : World) : bool :=
  match user w with Some _ => true | None => false end.

End Watch.

(** ** More fixtures *)

Module Bench.

(** A screen over a page, with the image of an earlier dossier revealed. *)
Definition screen_of (w : World) : Screen :=
  {| page := w; isImageRevealed := true; scheduled_reveals := [] |}.

(** The config of a request for one string. *)
Definition probe : GenerationConfig := json_config (TypeSTRING None).

(** The page of a signed-in user who has stored no key. *)
Definition signed_in_keyless : World :=
  {| technoir_api_key := None; trace := [];
     state := {| transmission := Some Fixture.on_screen; status := viewing;
                 error := None |};
     activeLead := None;
     user := Some {| email := "gm@example.org"; user_name := "GM"; picture := EmptyString;
                     accessToken := None; isMaster := false |};
     hasApiKey := false; showKeyModal := false |}.

End Bench.

(** ** Full mode, call by call *)

Section Scan.

Context {runtime : Runtime}.
Context {json_title : JSON TitleAndSetting} {json_exposition : JSON Exposition}
        {json_leads : JSON LeadsData} {json_text : JSON LeadText}.


Variable onLog : string -> M unit.

(** The transmission with which the loop is entered, and the world [w0] in
    which it is entered. *)
Variable t : Transmission.




End Scan.

(** ** The image stages side by side *)

Section Stages.

Context {runtime : Runtime}.

Inductive ImageStage : Type :=
| HeaderImage (title summary : string) (exposition : Exposition)
| LeadImage (lead : Lead) (title summary sensorySight : string)
| LeadImageAgain (lead : Lead) (sensory : Sensory) (expandedDescription : string)
    (exposition : Exposition).

Definition run_stage (stage : ImageStage) : M (option string) :=
  match stage with
  | HeaderImage title summary exposition =>
      generateTransmissionHeader title summary exposition
  | LeadImage lead title summary sensorySight =>
      generateLeadInspectionImage lead title summary sensorySight
  | LeadImageAgain lead sensory expandedDescription exposition =>
      regenerateLeadImage lead sensory expandedDescription exposition
  end.

(** The request that the stage puts on the image transport. *)
Definition stage_request (stage : ImageStage) : ImageRequest :=
  match stage with
  | HeaderImage title summary exposition =>
      {| image_model := "gemini-2.5-flash-image";
         image_text := header_prompt title summary exposition;
         aspectRatio := "16:9" |}
  | LeadImage lead title summary sensorySight =>
      {| image_model := "gemini-2.5-flash-image";
         image_text := inspection_image_prompt lead title summary sensorySight;
         aspectRatio := "1:1" |}
  | LeadImageAgain lead sensory expandedDescription exposition =>
      {| image_model := "gemini-2.5-flash-image";
         image_text := regeneration_image_prompt lead sensory expandedDescription exposition;
         aspectRatio := "1:1" |}
  end.

(** The label under which the stage logs what it caught. *)
Definition stage_label (stage : ImageStage) : string :=
  match stage with
  | HeaderImage _ _ _ => "Header image generation failed"
  | LeadImage _ _ _ _ => "Lead image generation failed"
  | LeadImageAgain _ _ _ _ => "Lead image regeneration failed"
  end.

End Stages.

(** ** Fixtures for shared ids and for failures by call *)

Module Cases.

Import Fixture.

(** A lead that came with the id of Ghost, and has a dossier. *)
Definition echo : Lead :=
  lead_with "con-1" "Echo" "A voice on a dead line." Connections (Some dossier).

(** A transmission in which two leads share an id. *)
Definition twins : Transmission :=
  {| transmission_id := 1700000000000%Z; createdAt := "11/14/2023";
     title := "Neon Requiem"; settingSummary := "It rains. Nobody is clean.";
     exposition := expo; headerImageUrl := None; leads := [ghost; echo] |}.

Definition twin_viewer : World :=
  {| technoir_api_key := Some "k-0123456789"; trace := [];
     state := {| transmission := Some twins; status := viewing; error := None |};
     activeLead := None; user := None; hasApiKey := true; showKeyModal := false |}.





End Cases.

(** * Properties *)

(** ** Fence stripping and trimming *)

Module TextFacts.
Import Text.

Lemma prefix_cons a p b s :
  prefix (String a p) (String b s) = if ascii_dec a b then prefix p s else false.
Proof. reflexivity. Qed.

Lemma prefix_nil s : prefix EmptyString s = true.
Proof. destruct s; reflexivity. Qed.

Lemma fence_unfold :
  fence = String backtick (String backtick (String backtick EmptyString)).
Proof. reflexivity. Qed.

Lemma starts_with_backtick_cons c s :
  starts_with_backtick (String c s) = if ascii_dec c backtick then true else false.
Proof. reflexivity. Qed.

Lemma starts_with_backtick_tick s : starts_with_backtick (String backtick s) = true.
Proof.
  rewrite starts_with_backtick_cons.
  destruct (ascii_dec backtick backtick); congruence.
Qed.

Lemma prefix_fence_cons c s :
  prefix fence (String c s) = true ->
  exists t, s = String backtick (String backtick t) /\ c = backtick.
Proof.
  rewrite fence_unfold, prefix_cons.
  destruct (ascii_dec backtick c) as [<-|]; [|discriminate].
  destruct s as [|d s]; [discriminate|]. rewrite prefix_cons.
  destruct (ascii_dec backtick d) as [<-|]; [|discriminate].
  destruct s as [|e s]; [discriminate|]. rewrite prefix_cons.
  destruct (ascii_dec backtick e) as [<-|]; [|discriminate].
  intros _. eauto.
Qed.

Lemma prefix_fence_ticks t :
  prefix fence (String backtick (String backtick (String backtick t))) = true.
Proof.
  rewrite fence_unfold, !prefix_cons, prefix_nil.
  destruct (ascii_dec backtick backtick); [reflexivity|congruence].
Qed.

Lemma prefix_fence_head s :
  prefix fence s = true -> starts_with_backtick s = true.
Proof.
  destruct s as [|c r]; [discriminate|].
  intros H. apply prefix_fence_cons in H. destruct H as (t & _ & ->).
  apply starts_with_backtick_tick.
Qed.

Lemma prefix_app_left p q s :
  prefix (p ++ q) s = true -> prefix p s = true.
Proof.
  revert s. induction p as [|a p IH]; intros s; [intros _; apply prefix_nil|].
  destruct s as [|b s]; [discriminate|].
  change (String a p ++ q) with (String a (p ++ q)). rewrite !prefix_cons.
  destruct (ascii_dec a b); [apply IH|discriminate].
Qed.

Lemma fence_match_None s :
  prefix fence s = false -> fence_match s = None.
Proof.
  intros H. unfold fence_match.
  destruct (prefix fence_json_nl s) eqn:E1.
  { apply prefix_app_left in E1. apply prefix_app_left in E1. congruence. }
  destruct (prefix fence_json s) eqn:E2.
  { apply prefix_app_left in E2. congruence. }
  rewrite H. reflexivity.
Qed.

Lemma fence_match_Some s n :
  fence_match s = Some n -> prefix fence s = true /\ 0 < n.
Proof.
  unfold fence_match.
  destruct (prefix fence_json_nl s) eqn:E1.
  { intros [= <-]. split; [|lia].
    apply prefix_app_left in E1. apply prefix_app_left in E1. exact E1. }
  destruct (prefix fence_json s) eqn:E2.
  { intros [= <-]. split; [|lia]. apply prefix_app_left in E2. exact E2. }
  destruct (prefix fence s); [intros [= <-]; split; [reflexivity|lia] | discriminate].
Qed.

(** A character that opens no match is copied. *)
Lemma replace_fences_keep c r :
  prefix fence (String c r) = false ->
  replace_fences (String c r) = String c (replace_fences r).
Proof.
  intros H. unfold replace_fences. simpl replace_fences_from.
  rewrite (fence_match_None _ H). reflexivity.
Qed.

Lemma no_backtick_no_fence s :
  starts_with_backtick s = false -> prefix fence s = false.
Proof.
  intros H. destruct (prefix fence s) eqn:E; [|reflexivity].
  apply prefix_fence_head in E. congruence.
Qed.

Lemma replace_fences_head s :
  starts_with_backtick s = false ->
  starts_with_backtick (replace_fences s) = false.
Proof.
  destruct s as [|c r]; [reflexivity|]. intros H.
  rewrite replace_fences_keep by (apply no_backtick_no_fence; exact H).
  exact H.
Qed.

(** Copying a character in front of a stripped text opens no new fence. *)
Lemma replace_fences_no_new_fence c r :
  prefix fence (String c r) = false ->
  prefix fence (String c (replace_fences r)) = false.
Proof.
  intros H.
  destruct (prefix fence (String c (replace_fences r))) eqn:E; [|reflexivity].
  exfalso. apply prefix_fence_cons in E. destruct E as (t & Et & ->).
  destruct r as [|d r]; [discriminate|].
  destruct (starts_with_backtick (String d r)) eqn:Hd.
  - rewrite starts_with_backtick_cons in Hd.
    destruct (ascii_dec d backtick) as [->|]; [|discriminate].
    destruct (starts_with_backtick r) eqn:Hr.
    + destruct r as [|e r]; [discriminate|].
      rewrite starts_with_backtick_cons in Hr.
      destruct (ascii_dec e backtick) as [->|]; [|discriminate].
      rewrite prefix_fence_ticks in H. discriminate.
    + assert (Hk : prefix fence (String backtick r) = false).
      { destruct (prefix fence (String backtick r)) eqn:Hp; [|reflexivity].
        apply prefix_fence_cons in Hp. destruct Hp as (u & -> & _).
        rewrite starts_with_backtick_tick in Hr. discriminate. }
      rewrite (replace_fences_keep _ _ Hk) in Et.
      injection Et as Et. apply replace_fences_head in Hr.
      rewrite Et, starts_with_backtick_tick in Hr. discriminate.
  - apply replace_fences_head in Hd.
    rewrite Et, starts_with_backtick_tick in Hd. discriminate.
Qed.

Lemma replace_fences_from_fence_free s :
  forall skip, fence_free (replace_fences_from skip s) = true.
Proof.
  induction s as [|c r IH]; intros skip; [reflexivity|].
  destruct skip as [|k]; [|apply IH].
  simpl replace_fences_from.
  destruct (fence_match (String c r)) as [[|k]|] eqn:E; [| apply IH |].
  - apply fence_match_Some in E. lia.
  - cbn [fence_free]. rewrite IH, andb_true_r.
    assert (H : prefix fence (String c r) = false).
    { destruct (prefix fence (String c r)) eqn:Hp; [|reflexivity].
      unfold fence_match in E.
      destruct (prefix fence_json_nl (String c r)); [discriminate|].
      destruct (prefix fence_json (String c r)); [discriminate|].
      rewrite Hp in E. discriminate. }
    apply negb_true_iff. apply (replace_fences_no_new_fence c r H).
Qed.

Lemma replace_fences_fence_free s : fence_free (replace_fences s) = true.
Proof. apply replace_fences_from_fence_free. Qed.

(** On a text without fences the replacement changes nothing. *)
Lemma replace_fences_id s : fence_free s = true -> replace_fences s = s.
Proof.
  induction s as [|c r IH]; [reflexivity|].
  cbn [fence_free]. intros H. apply andb_true_iff in H. destruct H as [H1 H2].
  apply negb_true_iff in H1.
  rewrite (replace_fences_keep _ _ H1), (IH H2). reflexivity.
Qed.

Lemma trimStart_fence_free s : fence_free s = true -> fence_free (trimStart s) = true.
Proof.
  induction s as [|c r IH]; [reflexivity|].
  intros H. simpl trimStart. destruct (is_white_space c); [|exact H].
  apply IH. cbn [fence_free] in H. apply andb_true_iff in H. tauto.
Qed.

Lemma trimEnd_prefix p s : prefix p (trimEnd s) = true -> prefix p s = true.
Proof.
  revert p. induction s as [|c r IH]; intros p; [exact (fun H => H)|].
  destruct p as [|a p]; [intros _; apply prefix_nil|].
  simpl trimEnd. destruct (trimEnd r) as [|d r'] eqn:E.
  - destruct (is_white_space c); [discriminate|].
    rewrite !prefix_cons. destruct (ascii_dec a c); [|discriminate].
    destruct p; [intros _; apply prefix_nil|discriminate].
  - rewrite !prefix_cons. destruct (ascii_dec a c); [|discriminate]. apply IH.
Qed.

Lemma trimEnd_fence_free s : fence_free s = true -> fence_free (trimEnd s) = true.
Proof.
  induction s as [|c r IH]; [reflexivity|].
  cbn [fence_free]. intros H. apply andb_true_iff in H. destruct H as [H1 H2].
  specialize (IH H2). simpl trimEnd. destruct (trimEnd r) as [|d r'] eqn:E.
  - destruct (is_white_space c); [reflexivity|].
    cbn [fence_free]. rewrite andb_true_r. apply negb_true_iff.
    rewrite fence_unfold, prefix_cons. destruct (ascii_dec backtick c); reflexivity.
  - cbn [fence_free] in *. rewrite IH, andb_true_r. apply negb_true_iff.
    apply negb_true_iff in H1.
    destruct (prefix fence (String c (String d r'))) eqn:Hp; [|reflexivity].
    rewrite <- E in Hp.
    assert (Hq : prefix fence (String c r) = true).
    { rewrite fence_unfold, prefix_cons in Hp |- *.
      destruct (ascii_dec backtick c); [|discriminate].
      apply (trimEnd_prefix _ _ Hp). }
    congruence.
Qed.

Lemma trimEnd_idempotent s : trimEnd (trimEnd s) = trimEnd s.
Proof.
  induction s as [|c r IH]; [reflexivity|].
  simpl trimEnd. destruct (trimEnd r) as [|d r'] eqn:E.
  - destruct (is_white_space c) eqn:W; [reflexivity|].
    simpl. rewrite W. reflexivity.
  - change (trimEnd (String c (String d r'))) with
      (match trimEnd (String d r') with
       | EmptyString => if is_white_space c then EmptyString else String c EmptyString
       | String x y => String c (String x y)
       end).
    rewrite IH. reflexivity.
Qed.

Lemma trimStart_of_trimmed s :
  trimStart s = s -> trimStart (trimEnd s) = trimEnd s.
Proof.
  destruct s as [|c r]; [reflexivity|].
  simpl trimStart. destruct (is_white_space c) eqn:W.
  - intros H. exfalso.
    assert (L : forall t, String.length (trimStart t) <= String.length t).
    { induction t as [|x t IHt]; simpl; [lia|].
      destruct (is_white_space x); simpl; lia. }
    specialize (L r). rewrite H in L. simpl in L. lia.
  - intros _. simpl trimEnd. destruct (trimEnd r).
    + rewrite W. simpl. rewrite W. reflexivity.
    + simpl. rewrite W. reflexivity.
Qed.

Lemma trimStart_idempotent s : trimStart (trimStart s) = trimStart s.
Proof.
  induction s as [|c r IH]; [reflexivity|].
  simpl. destruct (is_white_space c) eqn:W; [exact IH|].
  simpl. rewrite W. reflexivity.
Qed.

Lemma trim_idempotent s : trim (trim s) = trim s.
Proof.
  unfold trim.
  rewrite (trimStart_of_trimmed _ (trimStart_idempotent s)).
  apply trimEnd_idempotent.
Qed.

Lemma cleanText_fence_free s : fence_free (cleanText s) = true.
Proof.
  unfold cleanText, trim.
  apply trimEnd_fence_free, trimStart_fence_free, replace_fences_fence_free.
Qed.

Lemma cleanText_idempotent s : cleanText (cleanText s) = cleanText s.
Proof.
  unfold cleanText at 1.
  rewrite (replace_fences_id _ (cleanText_fence_free s)).
  unfold cleanText. apply trim_idempotent.
Qed.

End TextFacts.

(** ** Running a promise *)

Lemma run_bind {A B} (c : M A) (k : A -> M B) w :
  bind c k w = match c w with
               | (Returned a, w') => k a w'
               | (Thrown e, w') => (Thrown e, w')
               end.
Proof. reflexivity. Qed.

Lemma run_try_catch {A} (c : M A) (handler : Exn -> M A) w :
  try_catch c handler w = match c w with
                          | (Returned a, w') => (Returned a, w')
                          | (Thrown e, w') => handler e w'
                          end.
Proof. reflexivity. Qed.

(** ** Running the service functions *)

Section Runs.

Import Observe.

Context {runtime : Runtime}.
Context {json_title : JSON TitleAndSetting} {json_exposition : JSON Exposition}
        {json_leads : JSON LeadsData} {json_text : JSON LeadText}
        {json_indexed : JSON StringIndexed} {json_dossier : JSON DossierData}.

Lemma add_events_nil w : add_events w [] = w.
Proof. destruct w. unfold add_events, set_trace. simpl. rewrite app_nil_r. reflexivity. Qed.

Lemma add_events_app w es fs :
  add_events (add_events w es) fs = add_events w (es ++ fs).
Proof. unfold add_events, set_trace. simpl. rewrite app_assoc. reflexivity. Qed.

Lemma credential_add_events w es : credential (add_events w es) = credential w.
Proof. reflexivity. Qed.

Lemma has_credential_key w w' :
  technoir_api_key w' = technoir_api_key w -> has_credential w' = has_credential w.
Proof. unfold has_credential, credential. intros ->. reflexivity. Qed.

Lemma getAI_run w :
  getAI w = match credential w with
            | Some k => (Returned {| apiKey := k |}, w)
            | None => (Thrown MissingCredential, w)
            end.
Proof.
  unfold getAI, getApiKey, bind, get_world, ret, credential.
  destruct (technoir_api_key w) as [k|]; [|reflexivity].
  destruct k; reflexivity.
Qed.

Lemma credential_truthy w k : credential w = Some k -> Text.truthy k = true.
Proof.
  unfold credential. destruct (technoir_api_key w) as [k'|]; [|discriminate].
  destruct (Text.truthy k') eqn:E; [|discriminate]. intros [= <-]. exact E.
Qed.

Lemma no_credential w : has_credential w = false -> credential w = None.
Proof. unfold has_credential. destruct (credential w); [discriminate|reflexivity]. Qed.

Lemma some_credential w :
  has_credential w = true -> exists k, credential w = Some k.
Proof. unfold has_credential. destruct (credential w); [eauto|discriminate]. Qed.

(** Without a credential [streamJson] stops in [getAI]. *)
Lemma streamJson_no_credential {T} {json : JSON T} model contents config onUpdate w :
  credential w = None ->
  streamJson (T := T) model contents config onUpdate w = (Thrown MissingCredential, w).
Proof.
  intros H. unfold streamJson, bind. rewrite getAI_run, H. reflexivity.
Qed.

(** The shape shared by the three image stages. *)
Lemma image_stage_run label req w :
  try_catch
    (ai <- getAI ;;
     response <- models_generateContent ai req ;;
     ret (first_inline_image (response_parts response)))
    (fun e => console_error label (Some e) ;;; ret None) w
  = match credential w with
    | None =>
        (Returned None, add_events w [ConsoleError label (Some MissingCredential)])
    | Some k =>
        match service_image (trace w) req with
        | inl e => (Returned None, add_events w [NetImage k req; ConsoleError label (Some e)])
        | inr response =>
            (Returned (first_inline_image (response_parts response)),
             add_events w [NetImage k req])
        end
    end.
Proof.
  unfold try_catch, bind at 1. rewrite getAI_run.
  destruct (credential w) as [k|]; [|reflexivity].
  unfold models_generateContent, bind, get_world, emit, throw, ret,
    console_error, emit. simpl.
  destruct (service_image (trace w) req); [|reflexivity].
  unfold add_events, set_trace. simpl. rewrite <- app_assoc. reflexivity.
Qed.

Lemma image_stage_result label req w :
  fst (try_catch
         (ai <- getAI ;;
          response <- models_generateContent ai req ;;
          ret (first_inline_image (response_parts response)))
         (fun e => console_error label (Some e) ;;; ret None) w)
  = Returned (image_result w req).
Proof.
  rewrite image_stage_run. unfold image_result.
  destruct (credential w); [|reflexivity].
  destruct (service_image (trace w) req); reflexivity.
Qed.

Lemma image_stage_key label req w :
  technoir_api_key
    (snd (try_catch
            (ai <- getAI ;;
             response <- models_generateContent ai req ;;
             ret (first_inline_image (response_parts response)))
            (fun e => console_error label (Some e) ;;; ret None) w))
  = technoir_api_key w.
Proof.
  rewrite image_stage_run.
  destruct (credential w); [|reflexivity].
  destruct (service_image (trace w) req); reflexivity.
Qed.

Lemma transport_calls_app tr es :
  transport_calls (tr ++ es) = (transport_calls tr ++ transport_calls es)%list.
Proof. apply filter_app. Qed.

(** The loop over the parts returns the first inline image, if any. *)
Lemma first_inline_image_spec ps :
  match first_inline_image ps with
  | None => Forall (fun part => inlineData part = None) ps
  | Some uri =>
      exists before part blob after,
        ps = (before ++ part :: after)%list /\
        Forall (fun earlier => inlineData earlier = None) before /\
        inlineData part = Some blob /\
        uri = "data:image/png;base64," ++ data blob
  end.
Proof.
  induction ps as [|p ps IH]; simpl; [constructor|].
  destruct (inlineData p) as [blob|] eqn:E.
  - exists [], p, blob, ps. repeat split; auto.
  - destruct (first_inline_image ps) as [uri|].
    + destruct IH as (before & part & b & after & -> & Hb & Hp & ->).
      exists (p :: before), part, b, after. repeat split; auto.
    + constructor; assumption.
Qed.

Lemma append_nil_r s : s ++ EmptyString = s.
Proof. induction s as [|c s IH]; simpl; [|rewrite IH]; reflexivity. Qed.

Lemma append_assoc s t u : (s ++ t) ++ u = s ++ (t ++ u).
Proof. induction s as [|c s IH]; simpl; [|rewrite IH]; reflexivity. Qed.

Lemma truthy_false s : Text.truthy s = false -> s = EmptyString.
Proof. destruct s; [reflexivity|discriminate]. Qed.

Lemma full_text_cons c chunks :
  full_text (c :: chunks) = chunk_text c ++ full_text chunks.
Proof.
  unfold full_text. simpl. destruct (map chunk_text chunks) eqn:E.
  - simpl. rewrite append_nil_r. reflexivity.
  - reflexivity.
Qed.

Lemma texts_cons c chunks :
  texts (c :: chunks) =
  if Text.truthy (chunk_text c) then chunk_text c :: texts chunks else texts chunks.
Proof. reflexivity. Qed.

(** The loop of [streamJson] with a recording callback: one invocation per
    increment that carries text, each with the text accumulated so far. *)
Lemma for_await_recording chunks acc w :
  for_await chunks (Some recording) acc w =
  (Returned (acc ++ full_text chunks),
   add_events w (map Callback (accumulated acc (texts chunks)))).
Proof.
  revert acc w. induction chunks as [|c chunks IH]; intros acc w.
  - simpl. rewrite append_nil_r, add_events_nil. reflexivity.
  - rewrite full_text_cons, texts_cons. simpl for_await.
    destruct c as [text|]; simpl chunk_text.
    + destruct (Text.truthy text) eqn:E.
      * unfold bind, call_optional, recording, emit. rewrite IH.
        rewrite append_assoc. f_equal.
        unfold add_events, set_trace. simpl. rewrite <- app_assoc. reflexivity.
      * rewrite IH. apply truthy_false in E. subst text. reflexivity.
    + rewrite IH. reflexivity.
Qed.

(** The same loop without a callback. *)
Lemma for_await_silent chunks acc w :
  for_await chunks None acc w = (Returned (acc ++ full_text chunks), w).
Proof.
  revert acc w. induction chunks as [|c chunks IH]; intros acc w.
  - simpl. rewrite append_nil_r. reflexivity.
  - rewrite full_text_cons. simpl for_await.
    destruct c as [text|]; simpl chunk_text.
    + destruct (Text.truthy text) eqn:E.
      * unfold bind, call_optional, ret. rewrite IH, append_assoc. reflexivity.
      * rewrite IH. apply truthy_false in E. subst text. reflexivity.
    + rewrite IH. reflexivity.
Qed.

Lemma finish_result {T} {json : JSON T} response w :
  fst (finish (T := T) response w) = stream_result (inr response).
Proof.
  unfold finish, stream_result. destruct (stream_failure response); [reflexivity|].
  simpl. destruct (JSON_parse _); reflexivity.
Qed.


Lemma streamJson_run {T} {json : JSON T} model contents config onUpdate progress w k :
  credential w = Some k ->
  (forall chunks w1,
      for_await chunks onUpdate EmptyString w1 =
      (Returned (full_text chunks), add_events w1 (progress chunks))) ->
  let req := {| stream_model := model; stream_contents := contents;
                stream_config := config |} in
  streamJson (T := T) model contents config onUpdate w =
  match service_stream (trace w) req with
  | inl e => (Thrown e, add_events w [NetStream k req])
  | inr response =>
      finish response
        (add_events w (NetStream k req :: progress (stream_chunks response)))
  end.
Proof.
  intros Hk Hloop req. unfold streamJson, bind at 1. rewrite getAI_run, Hk.
  unfold bind at 1. unfold models_generateContentStream, bind, get_world, emit. simpl.
  fold req. destruct (service_stream (trace w) req) as [e|response]; [reflexivity|].
  unfold ret, throw. rewrite Hloop.
  change (set_trace w (trace w ++ [NetStream k req])) with (add_events w [NetStream k req]).
  rewrite add_events_app. simpl app.
  unfold finish. destruct (stream_failure response); [reflexivity|].
  cbv zeta. destruct (JSON_parse _); reflexivity.
Qed.

Lemma streamJson_silent {T} {json : JSON T} model contents config w k :
  credential w = Some k ->
  let req := {| stream_model := model; stream_contents := contents;
                stream_config := config |} in
  streamJson (T := T) model contents config None w =
  match service_stream (trace w) req with
  | inl e => (Thrown e, add_events w [NetStream k req])
  | inr response => finish response (add_events w [NetStream k req])
  end.
Proof.
  intros Hk. apply (streamJson_run model contents config None (fun _ => [])); [exact Hk|].
  intros chunks w1. rewrite for_await_silent, add_events_nil. reflexivity.
Qed.

Lemma streamJson_recording {T} {json : JSON T} model contents config w k :
  credential w = Some k ->
  let req := {| stream_model := model; stream_contents := contents;
                stream_config := config |} in
  streamJson (T := T) model contents config (Some recording) w =
  match service_stream (trace w) req with
  | inl e => (Thrown e, add_events w [NetStream k req])
  | inr response =>
      finish response
        (add_events w
           (NetStream k req
              :: map Callback (accumulated EmptyString (texts (stream_chunks response)))))
  end.
Proof.
  intros Hk.
  apply (streamJson_run model contents config (Some recording)
           (fun chunks => map Callback (accumulated EmptyString (texts chunks))));
    [exact Hk|].
  intros chunks w1. rewrite for_await_recording. reflexivity.
Qed.

(** The loop with any advisory callback: the callback cannot change what
    is accumulated. *)
Lemma for_await_advisory chunks onUpdate acc w :
  advisory_if_given onUpdate ->
  exists w',
    for_await chunks onUpdate acc w = (Returned (acc ++ full_text chunks), w') /\
    technoir_api_key w' = technoir_api_key w.
Proof.
  intros Hadv. revert acc w. induction chunks as [|c chunks IH]; intros acc w.
  - exists w. simpl. rewrite append_nil_r. split; reflexivity.
  - rewrite full_text_cons. simpl for_await.
    destruct c as [text|]; simpl chunk_text; [|apply IH].
    destruct (Text.truthy text) eqn:E.
    + unfold bind. destruct onUpdate as [cb|]; simpl call_optional.
      * destruct (Hadv cb eq_refl (acc ++ text) w) as (w1 & -> & Hk1).
        destruct (IH (acc ++ text) w1) as (w2 & -> & Hk2).
        exists w2. rewrite append_assoc. split; [reflexivity|congruence].
      * unfold ret. destruct (IH (acc ++ text) w) as (w2 & -> & Hk2).
        exists w2. rewrite append_assoc. split; [reflexivity|congruence].
    + apply truthy_false in E. subst text. apply IH.
Qed.

Lemma streamJson_result {T} {json : JSON T} model contents config onUpdate w :
  has_credential w = true ->
  advisory_if_given onUpdate ->
  fst (streamJson (T := T) model contents config onUpdate w)
  = stream_result
      (service_stream (trace w)
         {| stream_model := model; stream_contents := contents;
            stream_config := config |}).
Proof.
  intros H Hadv. destruct (some_credential _ H) as [k Hk].
  unfold streamJson, bind at 1. rewrite getAI_run, Hk.
  unfold bind at 1. unfold models_generateContentStream, bind, get_world, emit. simpl.
  destruct (service_stream (trace w) _) as [e|response]; [reflexivity|].
  unfold ret.
  destruct (for_await_advisory (stream_chunks response) onUpdate EmptyString
              (set_trace w (trace w ++ [NetStream k
                 {| stream_model := model; stream_contents := contents;
                    stream_config := config |}])) Hadv) as (w1 & -> & _).
  simpl. destruct (stream_failure response); [reflexivity|].
  destruct (JSON_parse _); reflexivity.
Qed.



End Runs.

(** ** The claims about the service functions *)

Section ServiceClaims.

Import Observe.

Context {runtime : Runtime}.
Context {json_title : JSON TitleAndSetting} {json_exposition : JSON Exposition}
        {json_leads : JSON LeadsData} {json_text : JSON LeadText}
        {json_indexed : JSON StringIndexed} {json_dossier : JSON DossierData}.

(** C6. Cleaning an accumulated text twice gives the same text, hence the
    same parsed value, as cleaning it once.  This holds for every text, so
    in particular for a text wrapped in no fence or in one fence, with or
    without the json tag. *)
Theorem fence_stripping_idempotent {T : Type} {json : JSON T} (text : string) :
  Text.cleanText (Text.cleanText text) = Text.cleanText text /\
  JSON_parse (T := T) (Text.cleanText (Text.cleanText text))
  = JSON_parse (Text.cleanText text).
Proof.
  assert (H := TextFacts.cleanText_idempotent text).
  split; [exact H | rewrite H; reflexivity].
Qed.

(** C5, as amended.  With a credential in place and a stream opened by the
    service, [streamJson] invokes the progress callback once for every
    increment that carries text, in order, each time with the concatenation
    of the increments received so far; increments whose text is empty or
    absent cause no invocation.  Its result is the failure that broke the
    stream, or else the parse of the fence-stripped concatenation of all
    increments, so two streams with the same concatenation give the same
    result whatever their granularity. *)
Theorem stream_aggregation {T : Type} {json : JSON T}
    (model contents : string) (config : GenerationConfig)
    (w : World) (k : string) (response : ContentStream) :
  credential w = Some k ->
  service_stream (trace w)
    {| stream_model := model; stream_contents := contents; stream_config := config |}
  = inr response ->
  let run := streamJson (T := T) model contents config (Some recording) w in
  callback_args (trace (snd run))
  = (callback_args (trace w)
     ++ accumulated EmptyString (texts (stream_chunks response)))%list /\
  fst run = stream_result (inr response) /\
  forall other : ContentStream,
    stream_failure other = stream_failure response ->
    full_text (stream_chunks other) = full_text (stream_chunks response) ->
    stream_result (T := T) (inr other) = fst run.
Proof.
  intros Hk Hs run. unfold run.
  rewrite (streamJson_recording _ _ _ _ _ Hk). cbv zeta. rewrite Hs.
  split; [|split].
  - assert (Hargs : forall evs : list string,
               callback_args (map Callback evs) = evs).
    { induction evs as [|e evs IH]; simpl; [|rewrite IH]; reflexivity. }
    assert (Hfin : forall w1,
               callback_args (trace (snd (finish (T := T) response w1)))
               = callback_args (trace w1)).
    { intros w1. unfold finish. destruct (stream_failure response); [reflexivity|].
      cbv zeta. destruct (JSON_parse _); [reflexivity|].
      simpl. unfold callback_args. rewrite flat_map_app. simpl.
      rewrite app_nil_r. reflexivity. }
    rewrite Hfin. simpl. unfold callback_args at 1. rewrite flat_map_app.
    simpl. f_equal. apply Hargs.
  - apply finish_result.
  - intros other Hf Ht. rewrite finish_result. unfold stream_result.
    rewrite Hf, Ht. reflexivity.
Qed.

(** C2, as amended.  Without a resolvable credential every structured-text
    stage throws the missing-key error and leaves the world as it was, so
    the transport is not invoked; every image stage catches that error
    itself and returns no image, again without invoking the transport. *)
Theorem missing_credential_stops_before_transport (w : World) :
  has_credential w = false ->
  (forall theme onUpdate,
      generateTitleAndSetting theme onUpdate w = (Thrown MissingCredential, w)) /\
  (forall theme title summary onUpdate,
      generateExposition theme title summary onUpdate w
      = (Thrown MissingCredential, w)) /\
  (forall theme title summary exposition onUpdate,
      generateLeads theme title summary exposition onUpdate w
      = (Thrown MissingCredential, w)) /\
  (forall lead title summary exposition,
      generateLeadInspectionText lead title summary exposition w
      = (Thrown MissingCredential, w)) /\
  (forall lead field current exposition,
      regenerateSensoryField lead field current exposition w
      = (Thrown MissingCredential, w)) /\
  (forall lead current exposition,
      regenerateExpandedDescription lead current exposition w
      = (Thrown MissingCredential, w)) /\
  (forall title summary exposition,
      let run := generateTransmissionHeader title summary exposition w in
      fst run = Returned None /\
      transport_calls (trace (snd run)) = transport_calls (trace w)) /\
  (forall lead title summary sensorySight,
      let run := generateLeadInspectionImage lead title summary sensorySight w in
      fst run = Returned None /\
      transport_calls (trace (snd run)) = transport_calls (trace w)) /\
  (forall lead current expanded exposition,
      let run := regenerateLeadImage lead current expanded exposition w in
      fst run = Returned None /\
      transport_calls (trace (snd run)) = transport_calls (trace w)).
Proof.
  intros H. apply no_credential in H.
  assert (Himg : forall label req,
             let run := try_catch
                          (ai <- getAI ;;
                           response <- models_generateContent ai req ;;
                           ret (first_inline_image (response_parts response)))
                          (fun e => console_error label (Some e) ;;; ret None) w in
             fst run = Returned None /\
             transport_calls (trace (snd run)) = transport_calls (trace w)).
  { intros label req run. unfold run. rewrite image_stage_run, H. split; [reflexivity|].
    simpl. rewrite transport_calls_app. simpl. apply app_nil_r. }
  repeat split; intros;
    try (apply streamJson_no_credential; exact H);
    try (unfold generateLeads, regenerateSensoryField, regenerateExpandedDescription,
           bind; rewrite streamJson_no_credential by exact H; reflexivity);
    try (apply (proj1 (Himg _ _)));
    try (apply (proj2 (Himg _ _))).
Qed.

(** Each image stage is the shared shape at its own request and label. *)
Lemma run_stage_run stage w :
  run_stage stage w
  = match credential w with
    | None =>
        (Returned None,
         add_events w [ConsoleError (stage_label stage) (Some MissingCredential)])
    | Some k =>
        match service_image (trace w) (stage_request stage) with
        | inl e =>
            (Returned None,
             add_events w [NetImage k (stage_request stage);
                           ConsoleError (stage_label stage) (Some e)])
        | inr response =>
            (Returned (first_inline_image (response_parts response)),
             add_events w [NetImage k (stage_request stage)])
        end
    end.
Proof. destruct stage; apply image_stage_run. Qed.

Lemma first_inline_image_none ps :
  Forall (fun part => inlineData part = None) ps -> first_inline_image ps = None.
Proof.
  induction 1 as [|p ps Hp _ IH]; [reflexivity|]. simpl. rewrite Hp. exact IH.
Qed.

Lemma first_inline_image_first before part blob after :
  Forall (fun earlier => inlineData earlier = None) before ->
  inlineData part = Some blob ->
  first_inline_image (before ++ part :: after)
  = Some ("data:image/png;base64," ++ data blob).
Proof.
  intros Hb Hp. induction Hb as [|p ps E _ IH]; simpl.
  - rewrite Hp. reflexivity.
  - rewrite E. exact IH.
Qed.

(** C9. Every image stage (header image, lead image, lead image again)
    returns, whatever happens, and never throws.  It returns no image when
    no credential resolves, when the call throws, and when the response
    holds no inline image: no candidate, a first candidate without content
    or parts, or parts of which none holds inline data.  When the parts of
    the response, which the code takes from its first candidate, hold
    inline data, it returns the data URI of the first part that does. *)
Theorem image_stages_tolerate_failure (stage : ImageStage) (w : World) :
  let result := fst (run_stage stage w) in
  let reply := service_image (trace w) (stage_request stage) in
  (exists image, result = Returned image) /\
  (has_credential w = false -> result = Returned None) /\
  (forall e, reply = inl e -> result = Returned None) /\
  (forall response,
      has_credential w = true -> reply = inr response ->
      (forall first others before part blob after,
          candidates response = Some (first :: others) ->
          content first = Some {| parts := Some (before ++ part :: after)%list |} ->
          Forall (fun earlier => inlineData earlier = None) before ->
          inlineData part = Some blob ->
          result = Returned (Some ("data:image/png;base64," ++ data blob))) /\
      ((forall first others ps,
          candidates response = Some (first :: others) ->
          content first = Some {| parts := Some ps |} ->
          Forall (fun part => inlineData part = None) ps) ->
       result = Returned None)).
Proof.
  intros result reply. unfold result, reply, has_credential.
  rewrite run_stage_run.
  split; [|split; [|split]].
  - destruct (credential w); [|simpl; eauto].
    destruct (service_image _ _); simpl; eauto.
  - destruct (credential w); [discriminate|reflexivity].
  - intros e ->. destruct (credential w); reflexivity.
  - intros response Hc ->. destruct (credential w) as [k|]; [|discriminate].
    simpl fst. split.
    + intros first others before part blob after Hcs Hco Hb Hp.
      unfold response_parts. rewrite Hcs, Hco. cbn [parts]. cbv iota beta.
      rewrite (first_inline_image_first _ _ _ _ Hb Hp). reflexivity.
    + intros Hnone. f_equal. unfold response_parts.
      destruct (candidates response) as [[|first others]|] eqn:Hcs; try reflexivity.
      destruct (content first) as [[[ps|]]|] eqn:Hco; try reflexivity.
      apply first_inline_image_none. exact (Hnone first others ps eq_refl Hco).
Qed.

(** C8. In both image prompts the line that carries the visual-focus
    directive is determined by the category of the lead alone, by the fixed
    table: environment shot without a central character for Locations,
    close-up without people for Objects, dynamic scene for Events, and the
    character portrait for Connections, Threats and Factions. *)
Theorem focus_directive_by_category :
  let directive (c : Category) : string :=
    match c with
    | Locations =>
        "Wide or medium shot of the environment/location. Architecture, mood, lighting. NO central character. Environmental focus."
    | Objects =>
        "Close-up product shot or macro detail of the object. High texture. Object is the sole subject. No people."
    | Events =>
        "Dynamic scene, active situation, implied motion. Narrative focus."
    | Connections | Threats | Factions =>
        "Character portrait or group shot. Distinct cyberpunk fashion, expressive, moody lighting. Focus on the individual(s)."
    end in
  (forall lead title summary sensorySight,
      exists context_lines,
        inspection_image_prompt lead title summary sensorySight
        = Text.lines
            (context_lines
             ++ [ ("          Directive: " ++ directive (category lead))%string;
                  style_line ])%list) /\
  (forall lead current expanded exposition,
      exists context_lines,
        regeneration_image_prompt lead current expanded exposition
        = Text.lines
            (context_lines
             ++ [ ("          Directive: " ++ directive (category lead))%string;
                  style_line ])%list) /\
  (forall lead, inspection_focusDirective lead = directive (category lead)) /\
  (forall lead, regeneration_focusDirective lead = directive (category lead)).
Proof.
  intros directive.
  assert (H1 : forall lead, inspection_focusDirective lead = directive (category lead)).
  { intros lead. unfold inspection_focusDirective. destruct (category lead); reflexivity. }
  assert (H2 : forall lead, regeneration_focusDirective lead = directive (category lead)).
  { intros lead. unfold regeneration_focusDirective. destruct (category lead); reflexivity. }
  repeat split; auto.
  - intros lead title summary sensorySight.
    unfold inspection_image_prompt. cbv zeta. rewrite H1.
    eexists [_; _; _; _; _; _; _; _]. reflexivity.
  - intros lead current expanded exposition.
    unfold regeneration_image_prompt. cbv zeta. rewrite H2.
    eexists [_; _; _; _; _; _; _; _; _; _; _; _; _; _; _; _; _]. reflexivity.
Qed.

(** C7. [generateLeads] returns whatever leads array the response parses
    to, of any length and with any distribution over the categories: it
    checks neither the total of 36 nor the 6 per category, and it does not
    throw. *)
Theorem roster_accepted_unverified
    (theme title summary : string) (exposition : Exposition)
    (onUpdate : option (string -> M unit)) (w : World)
    (response : ContentStream) (roster : list Lead) :
  has_credential w = true ->
  advisory_if_given onUpdate ->
  service_stream (trace w)
    {| stream_model := "gemini-3-flash-preview";
       stream_contents := leads_prompt title summary exposition;
       stream_config := json_config leads_schema |}
  = inr response ->
  stream_failure response = None ->
  JSON_parse (Text.cleanText (full_text (stream_chunks response)))
  = Some {| data_leads := Some roster |} ->
  fst (generateLeads theme title summary exposition onUpdate w) = Returned roster.
Proof.
  intros Hc Hadv Hs Hf Hp.
  assert (H := streamJson_result (T := LeadsData) "gemini-3-flash-preview"
                 (leads_prompt title summary exposition) (json_config leads_schema)
                 onUpdate w Hc Hadv).
  rewrite Hs in H. unfold stream_result in H. rewrite Hf in H. cbv zeta in H.
  rewrite Hp in H.
  unfold generateLeads, bind.
  destruct (streamJson _ _ _ _ w) as [[data|e] w1]; simpl in H; [|discriminate].
  injection H as ->. reflexivity.
Qed.

End ServiceClaims.

(** ** The claims about the lead handlers *)

Section AppClaims.

Import Observe.

Context {runtime : Runtime}.
Context {json_indexed : JSON StringIndexed} {json_dossier : JSON DossierData}.

(** Replacing every element that satisfies [p] by one that satisfies it
    too leaves the first match where it was. *)
Lemma find_map_replace {A} (p : A -> bool) (c : A) (l : list A) :
  p c = true ->
  find p (map (fun x => if p x then c else x) l)
  = match find p l with Some _ => Some c | None => None end.
Proof.
  intros Hc. induction l as [|x l IH]; [reflexivity|].
  simpl. destruct (p x) eqn:E.
  - rewrite Hc. reflexivity.
  - rewrite E. exact IH.
Qed.

Lemma handleUpdateLead_run updatedLead current w :
  transmission (state w) = Some current ->
  let stored :=
    finalLead (find (fun l => id l =? id updatedLead) (leads current)) updatedLead in
  let updated :=
    with_leads current
      (map (fun l => if id l =? id updatedLead then stored else l) (leads current)) in
  handleUpdateLead updatedLead w
  = (Returned tt,
     set_state (add_events w [Saved updated])
       (with_transmission (state w) (Some updated))).
Proof.
  intros H stored updated.
  assert (Hid : id stored = id updatedLead).
  { unfold stored, finalLead. destruct (find _ _); [|reflexivity].
    destruct (_ || _); reflexivity. }
  unfold handleUpdateLead, setState, bind, get_world. rewrite H.
  unfold saveTransmission, emit, ret. simpl.
  fold stored. rewrite Hid. reflexivity.
Qed.

(** C4. Updating a lead that has details, under its own id, where that
    lead is the first of the transmission with the id (as every lead is
    when ids are unique): a changed name or a changed description stores
    the lead with its details cleared; unchanged name and description store
    it with the details it had.  The leads with another id stay as they
    were. *)
Theorem edit_invalidates_details
    (updatedLead existing : Lead) (d : LeadDetails) (current : Transmission)
    (w : World) :
  transmission (state w) = Some current ->
  find (fun l => id l =? id updatedLead) (leads current) = Some existing ->
  details existing = Some d ->
  let w' := snd (handleUpdateLead updatedLead w) in
  let lookup (t : Transmission) := find (fun l => id l =? id updatedLead) (leads t) in
  exists updated stored,
    transmission (state w') = Some updated /\
    lookup updated = Some stored /\
    leads updated
    = map (fun l => if id l =? id updatedLead then stored else l) (leads current) /\
    id stored = id updatedLead /\
    name stored = name updatedLead /\
    description stored = description updatedLead /\
    category stored = category updatedLead /\
    (name existing <> name updatedLead \/ description existing <> description updatedLead ->
     details stored = None) /\
    (name existing = name updatedLead ->
     description existing = description updatedLead ->
     details stored = Some d).
Proof.
  intros Ht Hfind Hd w' lookup. unfold w'.
  rewrite (handleUpdateLead_run _ _ _ Ht). cbv zeta. rewrite Hfind.
  set (stored := finalLead (Some existing) updatedLead).
  assert (Hid : id stored = id updatedLead).
  { unfold stored, finalLead. destruct (_ || _); reflexivity. }
  eexists _, stored. split; [reflexivity|].
  split; [|split; [reflexivity|split; [exact Hid|]]].
  - unfold lookup. simpl leads.
    rewrite (find_map_replace (fun l => id l =? id updatedLead) stored).
    + rewrite Hfind. reflexivity.
    + rewrite Hid. apply String.eqb_refl.
  - unfold stored, finalLead.
    destruct (String.eqb_spec (name existing) (name updatedLead)) as [En|En];
      destruct (String.eqb_spec (description existing) (description updatedLead))
        as [Ed|Ed]; simpl; repeat split; auto; try tauto;
      intros; try contradiction; try reflexivity.
Qed.

Lemma handleRegenerateDossierField_run lead fieldType sensoryField w d current d' w1 :
  canGenerate w = true ->
  details lead = Some d ->
  transmission (state w) = Some current ->
  regenerate_details lead d (exposition current) fieldType sensoryField w
  = (Returned d', w1) ->
  state w1 = state w ->
  let updated :=
    with_leads current
      (map (fun l => if id l =? id lead then with_details l (Some d') else l)
         (leads current)) in
  handleRegenerateDossierField lead fieldType sensoryField w
  = (Returned tt,
     set_activeLead
       (set_state (add_events w1 [Saved updated])
          (with_transmission (state w) (Some updated)))
       (Some {| active_lead := with_details lead (Some d');
                active_details := Some d' |})).
Proof.
  intros Hg Hd Ht Hr Hs updated.
  unfold handleRegenerateDossierField. rewrite run_bind. unfold get_world.
  rewrite Hg, Hd, Ht. cbn [negb].
  rewrite run_try_catch, run_bind, Hr.
  cbv [bind setState get_world saveTransmission emit ret setActiveLead].
  rewrite Hs, Ht. reflexivity.
Qed.

Lemma regenerateLeadImage_state lead current expanded exposition w :
  state (snd (regenerateLeadImage lead current expanded exposition w)) = state w.
Proof.
  unfold regenerateLeadImage. rewrite image_stage_run.
  destruct (credential w); [|reflexivity].
  destruct (service_image _ _); reflexivity.
Qed.

(** C3. Regenerating one sensory field of a lead that has details: the
    request carries the other three sensory fields as context, and the
    updated details differ from the old ones in the targeted field only,
    which holds the value read from the response; the other three sensory
    fields, the expanded description and the image are the old ones. *)
Theorem sensory_regeneration_frame
    (lead : Lead) (d : LeadDetails) (current : Transmission) (w : World)
    (field : SensoryField) (k : string) (response : ContentStream)
    (result : StringIndexed) :
  let req :=
    {| stream_model := "gemini-3-flash-preview";
       stream_contents :=
         sensory_field_prompt lead field (sensory d) (exposition current);
       stream_config :=
         json_config (TypeOBJECT [ (SensoryField_key field, TypeSTRING None) ]
                                 [ SensoryField_key field ]) |} in
  canGenerate w = true ->
  details lead = Some d ->
  transmission (state w) = Some current ->
  credential w = Some k ->
  service_stream (trace w) req = inr response ->
  stream_failure response = None ->
  JSON_parse (Text.cleanText (full_text (stream_chunks response))) = Some result ->
  let w' := snd (handleRegenerateDossierField lead FieldSensory (Some field) w) in
  exists d' updated,
    activeLead w' = Some {| active_lead := with_details lead (Some d');
                            active_details := Some d' |} /\
    transmission (state w') = Some updated /\
    leads updated
    = map (fun l => if id l =? id lead then with_details l (Some d') else l)
        (leads current) /\
    trace w' = (trace w ++ [NetStream k req; Saved updated])%list /\
    Sensory_get field (sensory d') = result (SensoryField_key field) /\
    (forall other, other <> field ->
        Sensory_get other (sensory d') = Sensory_get other (sensory d)) /\
    expandedDescription d' = expandedDescription d /\
    imageUrl d' = imageUrl d /\
    otherFields field (sensory d)
    = Text.join Text.nl
        (map (fun other =>
                SensoryField_key other ++ ": " ++ Sensory_get other (sensory d))
           (other_fields field)) /\
    length (other_fields field) = 3 /\
    ~ In field (other_fields field) /\
    exists before after,
      stream_contents req
      = Text.lines
          (before
           ++ ("    " ++ otherFields field (sensory d))%string :: after)%list.
Proof.
  intros req Hg Hd Ht Hk Hs Hf Hp w'.
  set (d' := with_sensory d
               (with_field (sensory d) field (result (SensoryField_key field)))).
  assert (Hr : regenerate_details lead d (exposition current) FieldSensory (Some field) w
               = (Returned d', add_events w [NetStream k req])).
  { unfold regenerate_details, regenerateSensoryField. rewrite !run_bind.
    rewrite (streamJson_silent _ _ _ _ _ Hk). cbv zeta. fold req. rewrite Hs.
    unfold finish. rewrite Hf. cbv zeta. rewrite Hp. reflexivity. }
  unfold w'.
  rewrite (handleRegenerateDossierField_run _ _ _ _ _ _ _ _ Hg Hd Ht Hr eq_refl).
  cbv zeta. eexists d', _.
  split; [reflexivity|]. split; [reflexivity|]. split; [reflexivity|].
  split; [simpl; rewrite <- app_assoc; reflexivity|].
  split; [destruct field; reflexivity|].
  split; [intros other Ho; destruct field, other; try reflexivity; contradiction|].
  split; [reflexivity|]. split; [reflexivity|].
  split; [destruct field; reflexivity|].
  split; [destruct field; reflexivity|].
  split.
  - destruct field; simpl; intros H;
      repeat (destruct H as [H|H]; [discriminate|]); exact H.
  - eexists [_; _; _; _; _; _; _; _; _], [_; _]. reflexivity.
Qed.

(** C10. When regenerating the image of a lead yields no image, the details
    stored for the lead and shown as active are the details it had: the
    previous image, and every other field, unchanged. *)
Theorem failed_image_regeneration_keeps_image
    (lead : Lead) (d : LeadDetails) (current : Transmission) (w : World)
    (sensoryField : option SensoryField) :
  canGenerate w = true ->
  details lead = Some d ->
  transmission (state w) = Some current ->
  fst (regenerateLeadImage lead (sensory d) (expandedDescription d)
         (exposition current) w) = Returned None ->
  let w' := snd (handleRegenerateDossierField lead FieldImage sensoryField w) in
  activeLead w' = Some {| active_lead := with_details lead (Some d);
                          active_details := Some d |} /\
  exists updated,
    transmission (state w') = Some updated /\
    leads updated
    = map (fun l => if id l =? id lead then with_details l (Some d) else l)
        (leads current) /\
    forall stored, In stored (leads updated) -> id stored = id lead ->
                   details stored = Some d.
Proof.
  intros Hg Hd Ht Himg w'.
  assert (Hst := regenerateLeadImage_state lead (sensory d) (expandedDescription d)
                   (exposition current) w).
  destruct (regenerateLeadImage lead (sensory d) (expandedDescription d)
              (exposition current) w) as [o w1] eqn:E.
  simpl in Himg, Hst. subst o.
  assert (Hr : regenerate_details lead d (exposition current) FieldImage sensoryField w
               = (Returned d, w1)).
  { unfold regenerate_details. rewrite run_bind, E. reflexivity. }
  unfold w'.
  rewrite (handleRegenerateDossierField_run _ _ _ _ _ _ _ _ Hg Hd Ht Hr Hst).
  cbv zeta. split; [reflexivity|]. eexists. split; [reflexivity|].
  split; [reflexivity|].
  intros stored Hin Hid. simpl leads in Hin. apply in_map_iff in Hin.
  destruct Hin as (l & Hl & _).
  destruct (String.eqb_spec (id l) (id lead)) as [_|Hne].
  - subst stored. reflexivity.
  - subst stored. contradiction.
Qed.

End AppClaims.

(** ** Full-mode orchestration *)

Section FullMode.

Import Observe.

Context {runtime : Runtime}.
Context {json_title : JSON TitleAndSetting} {json_exposition : JSON Exposition}
        {json_leads : JSON LeadsData} {json_text : JSON LeadText}.











End FullMode.

(** ** The claims at concrete inputs *)

Section Concrete.

Import Observe Fixture.

(** C6 at a response fenced with the json tag, at one fenced without it
    and at one that is not fenced. *)
Example cleanText_fenced :
  Text.cleanText (full_text fenced_chunks) = "ROSTER" /\
  Text.cleanText (Text.cleanText (full_text fenced_chunks)) = "ROSTER" /\
  Text.cleanText (Text.fence ++ Text.nl ++ "{}" ++ Text.nl ++ Text.fence) = "{}" /\
  Text.cleanText (" {} " ++ Text.nl) = "{}".
Proof. repeat split; reflexivity. Qed.

(** C5 as stated fails: four increments arrive, two of them carry no text,
    and the callback is invoked twice, not after every increment. *)
Lemma progress_not_after_every_increment :
  let run :=
    streamJson (runtime := scripted sparse_chunks []) (json := only "{}" tt)
      "gemini-3-flash-preview" "prompt" (json_config (TypeSTRING None))
      (Some recording) keyed in
  callback_args (trace (snd run)) = ["{"; "{}"] /\
  accumulated_after_every_increment sparse_chunks = ["{"; "{"; "{"; "{}"] /\
  callback_args (trace (snd run)) <> accumulated_after_every_increment sparse_chunks.
Proof.
  cbv zeta. split; [reflexivity|]. split; [reflexivity|]. vm_compute. discriminate.
Qed.

Lemma stream_aggregation_witness :
  let run :=
    streamJson (runtime := scripted sparse_chunks []) (json := only "{}" tt)
      "gemini-3-flash-preview" "prompt" (json_config (TypeSTRING None))
      (Some recording) keyed in
  credential keyed = Some "k-0123456789" /\
  callback_args (trace (snd run)) = accumulated EmptyString (texts sparse_chunks) /\
  fst run = Returned tt.
Proof.
  cbv zeta.
  destruct (stream_aggregation (runtime := scripted sparse_chunks [])
              (json := only "{}" tt)
              "gemini-3-flash-preview" "prompt" (json_config (TypeSTRING None))
              keyed "k-0123456789"
              {| stream_chunks := sparse_chunks; stream_failure := None |}
              eq_refl eq_refl) as (Hargs & Hres & _).
  split; [reflexivity|]. split; [exact Hargs | exact Hres].
Defined.

(** C2 as stated fails for the image stages: without a credential the
    header stage returns no image instead of failing. *)
Lemma missing_credential_image_stage_returns :
  has_credential blank = false /\
  fst (generateTransmissionHeader (runtime := offline) "Neon Requiem" "Rain." expo blank)
  = Returned None /\
  fst (generateTransmissionHeader (runtime := offline) "Neon Requiem" "Rain." expo blank)
  <> Thrown MissingCredential.
Proof.
  split; [reflexivity|]. split; [reflexivity|]. vm_compute. discriminate.
Qed.

Lemma missing_credential_witness :
  has_credential blank = false /\
  generateLeads (runtime := offline) (json_leads := nothing)
    "Neo-Tokyo 2099" "Neon Requiem" "Rain." expo None blank
  = (Thrown MissingCredential, blank) /\
  transport_calls
    (trace (snd (regenerateLeadImage (runtime := offline) detailed_ghost senses "E" expo
                   blank)))
  = [].
Proof.
  destruct (missing_credential_stops_before_transport (runtime := offline)
              (json_title := nothing) (json_exposition := nothing)
              (json_leads := nothing) (json_text := nothing)
              (json_indexed := nothing) (json_dossier := nothing)
              blank eq_refl)
    as (_ & _ & Hleads & _ & _ & _ & _ & _ & Himage).
  split; [reflexivity|]. split; [apply Hleads|].
  apply (proj2 (Himage detailed_ghost senses "E" expo)).
Defined.

Lemma roster_accepted_unverified_witness :
  length roster35 = 35 /\
  Forall (fun lead => category lead = Threats) roster35 /\
  fst (generateLeads (runtime := scripted fenced_chunks [])
         (json_leads := only "ROSTER" {| data_leads := Some roster35 |})
         "Neo-Tokyo 2099" "Neon Requiem" "Rain." expo (Some recording) keyed)
  = Returned roster35.
Proof.
  split; [reflexivity|]. split; [repeat constructor|].
  apply (roster_accepted_unverified (runtime := scripted fenced_chunks [])
           (json_leads := only "ROSTER" {| data_leads := Some roster35 |})
           "Neo-Tokyo 2099" "Neon Requiem" "Rain." expo (Some recording) keyed
           {| stream_chunks := fenced_chunks; stream_failure := None |} roster35).
  - reflexivity.
  - intros cb [= <-] arg w. eexists. split; reflexivity.
  - reflexivity.
  - reflexivity.
  - reflexivity.
Defined.

(** C4 as it reads, at a lead that shares its id with an earlier lead: the
    update that leaves the name and the description of Echo as they are
    clears its details all the same, because the code compares with Ghost,
    the first lead of the id, and stores one lead for every lead of the
    id. *)
Lemma shared_id_update_clears_details :
  let w' := snd (handleUpdateLead Cases.echo Cases.twin_viewer) in
  transmission (state Cases.twin_viewer) = Some Cases.twins /\
  nth_error (leads Cases.twins) 1 = Some Cases.echo /\
  details Cases.echo = Some dossier /\
  option_map leads (transmission (state w'))
  = Some [with_details Cases.echo None; with_details Cases.echo None] /\
  option_map (fun t => map details (leads t)) (transmission (state w'))
  <> option_map (fun t => map details (leads t)) (transmission (state Cases.twin_viewer)).
Proof.
  cbv zeta. repeat split; try reflexivity. vm_compute. discriminate.
Qed.

Lemma edit_invalidates_details_witness :
  let renamed := lead_with "con-1" "Wraith" "A broker nobody has met." Connections None in
  let same := lead_with "con-1" "Ghost" "A broker nobody has met." Connections None in
  let lookup (w : World) :=
    match transmission (state w) with
    | Some t => find (fun l => id l =? "con-1") (leads t)
    | None => None
    end in
  lookup viewer = Some detailed_ghost /\
  lookup (snd (handleUpdateLead renamed viewer))
  = Some (lead_with "con-1" "Wraith" "A broker nobody has met." Connections None) /\
  lookup (snd (handleUpdateLead same viewer)) = Some detailed_ghost.
Proof.
  cbv zeta. split; [reflexivity|]. split.
  - destruct (edit_invalidates_details
                (lead_with "con-1" "Wraith" "A broker nobody has met." Connections None)
                detailed_ghost dossier on_screen viewer eq_refl eq_refl eq_refl)
      as (updated & stored & Ht & Hfind & _ & Hid & Hname & Hdesc & Hcat & Hchanged & _).
    rewrite Ht. simpl in Hfind. rewrite Hfind. f_equal.
    destruct stored as [i n d c ds]. simpl in Hid, Hname, Hdesc, Hchanged, Hcat.
    rewrite Hid, Hname, Hdesc, Hcat, Hchanged by (left; discriminate).
    reflexivity.
  - destruct (edit_invalidates_details
                (lead_with "con-1" "Ghost" "A broker nobody has met." Connections None)
                detailed_ghost dossier on_screen viewer eq_refl eq_refl eq_refl)
      as (updated & stored & Ht & Hfind & _ & Hid & Hname & Hdesc & Hcat & _ & Hsame).
    rewrite Ht. simpl in Hfind. rewrite Hfind. f_equal.
    destruct stored as [i n d c ds]. simpl in Hid, Hname, Hdesc, Hsame, Hcat.
    rewrite Hid, Hname, Hdesc, Hcat, Hsame by reflexivity.
    reflexivity.
Defined.

Lemma sensory_regeneration_frame_witness :
  let w' :=
    snd (handleRegenerateDossierField (runtime := scripted [Some "X"] [])
           (json_indexed := only "X" (fun _ => "ozone")) (json_dossier := nothing)
           detailed_ghost FieldSensory (Some Smell) viewer) in
  details detailed_ghost
  = Some {| sensory := {| sight := "A"; sound := "B"; smell := "C"; vibe := "D" |};
            expandedDescription := "E"; imageUrl := Some "F" |} /\
  exists d',
    option_map active_details (activeLead w') = Some (Some d') /\
    sight (sensory d') = "A" /\ sound (sensory d') = "B" /\
    smell (sensory d') = "ozone" /\ vibe (sensory d') = "D" /\
    expandedDescription d' = "E" /\ imageUrl d' = Some "F" /\
    otherFields Smell senses = Text.lines ["sight: A"; "sound: B"; "vibe: D"].
Proof.
  cbv zeta. split; [reflexivity|].
  destruct (sensory_regeneration_frame (runtime := scripted [Some "X"] [])
              (json_indexed := only "X" (fun _ => "ozone")) (json_dossier := nothing)
              detailed_ghost dossier on_screen viewer Smell "k-0123456789"
              {| stream_chunks := [Some "X"]; stream_failure := None |}
              (fun _ => "ozone")
              eq_refl eq_refl eq_refl eq_refl eq_refl eq_refl eq_refl)
    as (d' & updated & -> & _ & _ & _ & Hnew & Hframe & Hexp & Himg & Hother & _).
  exists d'. split; [reflexivity|].
  split; [apply (Hframe Sight); discriminate|].
  split; [apply (Hframe Sound); discriminate|].
  split; [exact Hnew|].
  split; [apply (Hframe Vibe); discriminate|].
  split; [exact Hexp|]. split; [exact Himg|]. exact Hother.
Defined.

Lemma failed_image_regeneration_witness :
  let w' :=
    snd (handleRegenerateDossierField (runtime := offline)
           (json_indexed := nothing) (json_dossier := nothing)
           detailed_ghost FieldImage None viewer) in
  fst (regenerateLeadImage (runtime := offline) detailed_ghost senses "E" expo viewer)
  = Returned None /\
  option_map active_details (activeLead w') = Some (Some dossier) /\
  option_map leads (transmission (state w')) = Some [dock; detailed_ghost].
Proof.
  cbv zeta. split; [reflexivity|].
  destruct (failed_image_regeneration_keeps_image (runtime := offline)
              (json_indexed := nothing) (json_dossier := nothing)
              detailed_ghost dossier on_screen viewer None
              eq_refl eq_refl eq_refl eq_refl)
    as (-> & updated & -> & Hleads & _).
  split; [reflexivity|]. simpl option_map. rewrite Hleads. reflexivity.
Defined.

(** C1 on a roster of three leads with the second one failing, by running
    the orchestration. *)
(** C9 at a response whose image comes after a caption, and at a service
    that is down. *)
Lemma image_stages_tolerate_failure_witness :
  fst (generateTransmissionHeader (runtime := haunted) "Neon Requiem" "Rain." expo keyed)
  = Returned (Some "data:image/png;base64,AAAA") /\
  fst (regenerateLeadImage (runtime := offline) ghost senses "E" expo keyed)
  = Returned None.
Proof.
  split.
  - destruct (image_stages_tolerate_failure (runtime := haunted)
                (HeaderImage "Neon Requiem" "Rain." expo) keyed)
      as (_ & _ & _ & Hreply).
    destruct (Hreply (one_candidate [caption "here"; png "AAAA"]) eq_refl eq_refl)
      as [Himage _].
    assert (Hbefore : Forall (fun earlier => inlineData earlier = None) [caption "here"])
      by (repeat constructor).
    exact (Himage {| content := Some {| parts := Some [caption "here"; png "AAAA"] |} |}
             [] [caption "here"] (png "AAAA")
             {| mimeType := "image/png"; data := "AAAA" |} []
             eq_refl eq_refl Hbefore eq_refl).
  - destruct (image_stages_tolerate_failure (runtime := offline)
                (LeadImageAgain ghost senses "E" expo) keyed)
      as (_ & _ & Hthrown & _).
    exact (Hthrown (ServiceError "offline") eq_refl).
Defined.

Example full_mode_run :
  let run :=
    generateFullTransmission (runtime := haunted)
      (json_title := only "X" premise) (json_exposition := only "X" expo)
      (json_leads := only "X" {| data_leads := Some roster3 |})
      (json_text := only "X" scan)
      "Neo-Tokyo 2099" recording keyed in
  match fst run with
  | Returned t =>
      map name (leads t) = ["Dock 9"; "Ghost"; "Black Ice"] /\
      map (fun lead => option_map imageUrl (details lead)) (leads t)
      = [Some (Some "data:image/png;base64,AAAA"); None;
         Some (Some "data:image/png;base64,AAAA")]
  | Thrown _ => False
  end.
Proof. vm_compute. split; reflexivity. Qed.


End Concrete.

(** * Further properties of the service functions *)

Section ServiceExtras.

Import Observe Watch.

Context {runtime : Runtime}.
Context {json_title : JSON TitleAndSetting} {json_exposition : JSON Exposition}
        {json_leads : JSON LeadsData} {json_text : JSON LeadText}
        {json_indexed : JSON StringIndexed} {json_dossier : JSON DossierData}.


Lemma callback_args_Callback args : callback_args (map Callback args) = args.
Proof. induction args as [|a args IH]; simpl; [|rewrite IH]; reflexivity. Qed.

Lemma transport_calls_Callback args : transport_calls (map Callback args) = [].
Proof. induction args as [|a args IH]; simpl; [reflexivity|exact IH]. Qed.

Lemma saved_transmissions_app tr es :
  saved_transmissions (tr ++ es)
  = (saved_transmissions tr ++ saved_transmissions es)%list.
Proof. apply flat_map_app. Qed.

Lemma finish_world {T} {json : JSON T} response w :
  exists es,
    snd (finish (T := T) response w) = add_events w es /\
    transport_calls es = [] /\ quiet es.
Proof.
  unfold finish. destruct (stream_failure response).
  - exists []. rewrite add_events_nil. repeat split.
  - cbv zeta. destruct (JSON_parse _).
    + exists []. rewrite add_events_nil. repeat split.
    + eexists. split; [reflexivity|]. repeat split.
Qed.

Lemma streamJson_silent_world {T} {json : JSON T} model contents config w :
  exists es,
    snd (streamJson (T := T) model contents config None w) = add_events w es /\
    quiet es.
Proof.
  destruct (credential w) as [k|] eqn:Hk.
  - rewrite (streamJson_silent _ _ _ _ _ Hk). cbv zeta.
    destruct (service_stream _ _) as [e|response].
    + eexists. split; [reflexivity|]. repeat split.
    + destruct (finish_world (T := T) response
                  (add_events w [NetStream k
                     {| stream_model := model; stream_contents := contents;
                        stream_config := config |}])) as (es & -> & _ & Hc & Hs).
      rewrite add_events_app. eexists. split; [reflexivity|].
      split; simpl; assumption.
  - rewrite streamJson_no_credential by exact Hk.
    exists []. rewrite add_events_nil. repeat split.
Qed.

Lemma image_stage_world label req w :
  exists es,
    snd (try_catch
           (ai <- getAI ;;
            response <- models_generateContent ai req ;;
            ret (first_inline_image (response_parts response)))
           (fun e => console_error label (Some e) ;;; ret None) w)
    = add_events w es /\ quiet es.
Proof.
  rewrite image_stage_run. destruct (credential w).
  - destruct (service_image _ _); eexists; (split; [reflexivity|repeat split]).
  - eexists. split; [reflexivity|repeat split].
Qed.

(** X1. With a key stored, one call of [streamJson] puts exactly one
    request on the streaming transport, whatever comes of it: the request
    carries the stored key and the model, contents and config given; there
    is no second attempt and no image request. *)
Theorem streamJson_single_request {T : Type} {json : JSON T}
    (model contents : string) (config : GenerationConfig) (record : bool)
    (w : World) (k : string) :
  credential w = Some k ->
  let onUpdate := if record then Some recording else None in
  transport_calls (trace (snd (streamJson (T := T) model contents config onUpdate w)))
  = (transport_calls (trace w)
     ++ [NetStream k {| stream_model := model; stream_contents := contents;
                        stream_config := config |}])%list.
Proof.
  intros Hk onUpdate.
  assert (Hfin : forall response es,
             transport_calls es = [] ->
             transport_calls
               (trace (snd (finish (T := T) response
                              (add_events w
                                 (NetStream k
                                    {| stream_model := model; stream_contents := contents;
                                       stream_config := config |} :: es))))) =
             (transport_calls (trace w)
              ++ [NetStream k {| stream_model := model; stream_contents := contents;
                                 stream_config := config |}])%list).
  { intros response es Hes.
    destruct (finish_world (T := T) response
                (add_events w
                   (NetStream k
                      {| stream_model := model; stream_contents := contents;
                         stream_config := config |} :: es))) as (fs & -> & Hfs & _).
    rewrite add_events_app. simpl trace. rewrite transport_calls_app. f_equal.
    unfold transport_calls in *. simpl. rewrite filter_app, Hes, Hfs. reflexivity. }
  unfold onUpdate. destruct record.
  - rewrite (streamJson_recording _ _ _ _ _ Hk). cbv zeta.
    destruct (service_stream _ _) as [e|response].
    + simpl. rewrite transport_calls_app. reflexivity.
    + apply Hfin, transport_calls_Callback.
  - rewrite (streamJson_silent _ _ _ _ _ Hk). cbv zeta.
    destruct (service_stream _ _) as [e|response].
    + simpl. rewrite transport_calls_app. reflexivity.
    + apply (Hfin response []). reflexivity.
Qed.

(** X2. When the service refuses the streaming request, [streamJson]
    throws the service's error as it is: the callback is not invoked,
    nothing is parsed and nothing is logged; the request is all that
    happened. *)
Theorem streamJson_service_error_propagates {T : Type} {json : JSON T}
    (model contents : string) (config : GenerationConfig)
    (onUpdate : option (string -> M unit)) (w : World) (k : string) (e : Exn) :
  let req := {| stream_model := model; stream_contents := contents;
                stream_config := config |} in
  credential w = Some k ->
  service_stream (trace w) req = inl e ->
  streamJson (T := T) model contents config onUpdate w
  = (Thrown e, add_events w [NetStream k req]).
Proof.
  intros req Hk Hs. unfold streamJson. rewrite run_bind, getAI_run, Hk.
  rewrite run_bind. unfold models_generateContentStream.
  rewrite run_bind. unfold get_world. rewrite run_bind. unfold emit.
  fold req. rewrite Hs. reflexivity.
Qed.

(** X3. When the stream breaks after some increments, the callback has
    been invoked for the increments that arrived, [streamJson] throws the
    error that broke the stream, and the partial text is neither parsed
    nor reported as a parse error. *)
Theorem streamJson_broken_stream {T : Type} {json : JSON T}
    (model contents : string) (config : GenerationConfig)
    (w : World) (k : string) (response : ContentStream) (e : Exn) :
  let req := {| stream_model := model; stream_contents := contents;
                stream_config := config |} in
  credential w = Some k ->
  service_stream (trace w) req = inr response ->
  stream_failure response = Some e ->
  streamJson (T := T) model contents config (Some recording) w
  = (Thrown e,
     add_events w
       (NetStream k req
          :: map Callback (accumulated EmptyString (texts (stream_chunks response))))).
Proof.
  intros req Hk Hs Hf. rewrite (streamJson_recording _ _ _ _ _ Hk). cbv zeta.
  fold req. rewrite Hs. unfold finish. rewrite Hf. reflexivity.
Qed.

(** X4. When the stream ends well but the cleaned text does not parse,
    [streamJson] logs one console error and throws the syntax error, both
    carrying the cleaned text; this happens after all progress callbacks. *)
Theorem streamJson_malformed_output {T : Type} {json : JSON T}
    (model contents : string) (config : GenerationConfig)
    (w : World) (k : string) (response : ContentStream) :
  let req := {| stream_model := model; stream_contents := contents;
                stream_config := config |} in
  let cleaned := Text.cleanText (full_text (stream_chunks response)) in
  credential w = Some k ->
  service_stream (trace w) req = inr response ->
  stream_failure response = None ->
  JSON_parse (T := T) cleaned = None ->
  streamJson (T := T) model contents config (Some recording) w
  = (Thrown (SyntaxError cleaned),
     add_events w
       (NetStream k req
          :: map Callback (accumulated EmptyString (texts (stream_chunks response)))
          ++ [ConsoleError "JSON parse error" (Some (SyntaxError cleaned))])).
Proof.
  intros req cleaned Hk Hs Hf Hp. rewrite (streamJson_recording _ _ _ _ _ Hk).
  cbv zeta. fold req. rewrite Hs. unfold finish. rewrite Hf. cbv zeta.
  fold cleaned. rewrite Hp. rewrite add_events_app. reflexivity.
Qed.

(** X5. When the response parses to an object without a leads array,
    [generateLeads] returns the empty roster instead of failing. *)
Theorem generateLeads_absent_array
    (theme title summary : string) (exposition : Exposition)
    (onUpdate : option (string -> M unit)) (w : World) (response : ContentStream) :
  has_credential w = true ->
  advisory_if_given onUpdate ->
  service_stream (trace w)
    {| stream_model := "gemini-3-flash-preview";
       stream_contents := leads_prompt title summary exposition;
       stream_config := json_config leads_schema |}
  = inr response ->
  stream_failure response = None ->
  JSON_parse (Text.cleanText (full_text (stream_chunks response)))
  = Some {| data_leads := None |} ->
  fst (generateLeads theme title summary exposition onUpdate w) = Returned [].
Proof.
  intros Hc Hadv Hs Hf Hp.
  assert (H := streamJson_result (T := LeadsData) "gemini-3-flash-preview"
                 (leads_prompt title summary exposition) (json_config leads_schema)
                 onUpdate w Hc Hadv).
  rewrite Hs in H. unfold stream_result in H. rewrite Hf in H. cbv zeta in H.
  rewrite Hp in H.
  unfold generateLeads. rewrite run_bind.
  destruct (streamJson _ _ _ _ w) as [[data|e] w1]; simpl in H; [|discriminate].
  injection H as ->. reflexivity.
Qed.


(** X6. With a key stored, every image stage puts exactly one request on
    the image transport and none on the streaming transport, whether an
    image comes back or not: the header asks for 16:9, the two lead image
    stages for 1:1, all of the image model and with the stored key. *)
Theorem image_stage_single_request (w : World) (k : string) :
  credential w = Some k ->
  (forall title summary exposition,
      transport_calls
        (trace (snd (generateTransmissionHeader title summary exposition w)))
      = (transport_calls (trace w)
         ++ [NetImage k {| image_model := "gemini-2.5-flash-image";
                           image_text := header_prompt title summary exposition;
                           aspectRatio := "16:9" |}])%list) /\
  (forall lead title summary sensorySight,
      transport_calls
        (trace (snd (generateLeadInspectionImage lead title summary sensorySight w)))
      = (transport_calls (trace w)
         ++ [NetImage k {| image_model := "gemini-2.5-flash-image";
                           image_text :=
                             inspection_image_prompt lead title summary sensorySight;
                           aspectRatio := "1:1" |}])%list) /\
  (forall lead current expanded exposition,
      transport_calls
        (trace (snd (regenerateLeadImage lead current expanded exposition w)))
      = (transport_calls (trace w)
         ++ [NetImage k {| image_model := "gemini-2.5-flash-image";
                           image_text :=
                             regeneration_image_prompt lead current expanded exposition;
                           aspectRatio := "1:1" |}])%list).
Proof.
  intros Hk.
  assert (H : forall label req,
             transport_calls
               (trace (snd (try_catch
                              (ai <- getAI ;;
                               response <- models_generateContent ai req ;;
                               ret (first_inline_image (response_parts response)))
                              (fun e => console_error label (Some e) ;;; ret None) w)))
             = (transport_calls (trace w) ++ [NetImage k req])%list).
  { intros label req. rewrite image_stage_run, Hk.
    destruct (service_image _ _); simpl; rewrite transport_calls_app; reflexivity. }
  repeat split; intros; apply H.
Qed.

End ServiceExtras.

(** * Further properties of full mode *)

Section FullModeExtras.

Import Observe Watch.

Context {runtime : Runtime}.
Context {json_title : JSON TitleAndSetting} {json_exposition : JSON Exposition}
        {json_leads : JSON LeadsData} {json_text : JSON LeadText}.




Lemma generateLeadInspectionText_world lead title summary exposition w :
  exists es,
    snd (generateLeadInspectionText lead title summary exposition w) = add_events w es /\
    quiet es.
Proof. apply streamJson_silent_world. Qed.




(** X7. Without a resolvable key, full mode announces its first stage and
    then throws the missing-key error: the only thing that happened is the
    first progress message. *)
Theorem full_mode_missing_credential
    (theme : string) (onLog : string -> M unit) (w : World) :
  has_credential w = false ->
  advisory onLog ->
  exists w1,
    onLog ">> GENERATING STRUCTURAL FRAMEWORK..." w = (Returned tt, w1) /\
    generateFullTransmission theme onLog w = (Thrown MissingCredential, w1).
Proof.
  intros Hc Hadv. unfold generateFullTransmission. rewrite run_bind.
  destruct (Hadv ">> GENERATING STRUCTURAL FRAMEWORK..." w) as (w1 & -> & K1).
  exists w1. split; [reflexivity|]. rewrite run_bind.
  unfold generateTitleAndSetting. rewrite streamJson_no_credential; [reflexivity|].
  apply no_credential. rewrite (has_credential_key _ _ K1). exact Hc.
Qed.




End FullModeExtras.

(** * Further properties of the lead handlers *)

Section AppExtras.

Import Observe Watch.

Context {runtime : Runtime}.
Context {json_indexed : JSON StringIndexed} {json_dossier : JSON DossierData}.

Lemma with_leads_same t : with_leads t (leads t) = t.
Proof. destruct t; reflexivity. Qed.

Lemma with_transmission_same s t :
  transmission s = Some t -> with_transmission s (Some t) = s.
Proof. destruct s; simpl; intros ->; reflexivity. Qed.

Lemma set_state_same w : set_state w (state w) = w.
Proof. destruct w; reflexivity. Qed.

Lemma map_no_match {A} (p : A -> bool) (c : A) (l : list A) :
  find p l = None -> map (fun x => if p x then c else x) l = l.
Proof.
  induction l as [|x l IH]; [reflexivity|].
  simpl. destruct (p x); [discriminate|]. intros H. rewrite (IH H). reflexivity.
Qed.

Lemma finalLead_id existing updatedLead :
  id (finalLead existing updatedLead) = id updatedLead.
Proof.
  unfold finalLead. destruct existing; [|reflexivity].
  destruct (_ || _); reflexivity.
Qed.

(** X11. [handleUpdateLead] where there is nothing to update: with no
    transmission loaded it does nothing at all; with an id that no lead of
    the transmission has, it leaves the transmission as it is and saves it
    again. *)
Theorem handleUpdateLead_no_match (updatedLead : Lead) (w : World) :
  (transmission (state w) = None ->
   handleUpdateLead updatedLead w = (Returned tt, w)) /\
  (forall current,
      transmission (state w) = Some current ->
      find (fun l => id l =? id updatedLead) (leads current) = None ->
      handleUpdateLead updatedLead w = (Returned tt, add_events w [Saved current])).
Proof.
  split.
  - intros H. unfold handleUpdateLead, setState. rewrite run_bind. unfold get_world.
    rewrite run_bind, H. unfold ret. rewrite set_state_same. reflexivity.
  - intros current Ht Hfind. rewrite (handleUpdateLead_run _ _ _ Ht). cbv zeta.
    rewrite (map_no_match (fun l => id l =? id updatedLead) _ _ Hfind).
    rewrite with_leads_same, (with_transmission_same _ _ Ht).
    change (state w) with (state (add_events w [Saved current])) at 1.
    rewrite set_state_same. reflexivity.
Qed.

(** X12. [handleUpdateLead] on a loaded transmission keeps the number, the
    order and the ids of the leads and every other field of the
    transmission; it leaves the leads with another id untouched, replaces
    every lead that has the id by one and the same lead, and saves exactly
    the transmission it stores. *)
Theorem handleUpdateLead_frame (updatedLead : Lead) (current : Transmission) (w : World) :
  transmission (state w) = Some current ->
  exists updated stored,
    handleUpdateLead updatedLead w
    = (Returned tt,
       set_state (add_events w [Saved updated])
         (with_transmission (state w) (Some updated))) /\
    map id (leads updated) = map id (leads current) /\
    with_leads updated (leads current) = current /\
    (forall l, In l (leads current) -> id l <> id updatedLead -> In l (leads updated)) /\
    (forall l, In l (leads updated) -> id l = id updatedLead -> l = stored).
Proof.
  intros Ht. rewrite (handleUpdateLead_run _ _ _ Ht). cbv zeta.
  set (stored := finalLead (find (fun l => id l =? id updatedLead) (leads current))
                   updatedLead).
  assert (Hid : id stored = id updatedLead) by apply finalLead_id.
  eexists _, stored. split; [reflexivity|]. simpl leads.
  split; [|split; [|split]].
  - rewrite map_map. apply map_ext. intros l.
    destruct (String.eqb_spec (id l) (id updatedLead)); congruence.
  - destruct current; reflexivity.
  - intros l Hin Hne. apply in_map_iff. exists l. split; [|exact Hin].
    destruct (String.eqb_spec (id l) (id updatedLead)); [contradiction|reflexivity].
  - intros l Hin Hl. apply in_map_iff in Hin. destruct Hin as (l0 & Hl0 & _).
    destruct (String.eqb_spec (id l0) (id updatedLead)); congruence.
Qed.

(** X13. The details that the caller passes inside the updated lead play
    no part in [handleUpdateLead]: the details stored come from the stored
    lead or are cleared. *)
Theorem handleUpdateLead_ignores_passed_details
    (updatedLead : Lead) (passed : option LeadDetails) (w : World) :
  handleUpdateLead (with_details updatedLead passed) w = handleUpdateLead updatedLead w.
Proof.
  assert (Hfinal : forall existing,
             finalLead existing (with_details updatedLead passed)
             = finalLead existing updatedLead).
  { intros existing. unfold finalLead. destruct existing; [|reflexivity].
    simpl. destruct (_ || _); reflexivity. }
  unfold handleUpdateLead, setState. rewrite !run_bind. unfold get_world.
  rewrite !run_bind. destruct (transmission (state w)); [|reflexivity].
  cbv zeta. rewrite !finalLead_id. simpl id. rewrite Hfinal. reflexivity.
Qed.

(** X14. Applying the same update twice leaves the state that applying it
    once leaves. *)
Theorem handleUpdateLead_idempotent (updatedLead : Lead) (w : World) :
  let once := snd (handleUpdateLead updatedLead w) in
  state (snd (handleUpdateLead updatedLead once)) = state once.
Proof.
  intros once. unfold once.
  destruct (transmission (state w)) as [current|] eqn:Ht.
  - pose (stored := finalLead (find (fun l => id l =? id updatedLead) (leads current))
                      updatedLead).
    assert (Hid : id stored = id updatedLead) by apply finalLead_id.
    assert (Hp : (id stored =? id updatedLead) = true)
      by (rewrite Hid; apply String.eqb_refl).
    pose (updated := with_leads current
                       (map (fun l => if id l =? id updatedLead then stored else l)
                          (leads current))).
    pose (w1 := set_state (add_events w [Saved updated])
                  (with_transmission (state w) (Some updated))).
    assert (H1 : handleUpdateLead updatedLead w = (Returned tt, w1))
      by exact (handleUpdateLead_run updatedLead current w Ht).
    assert (Hstored : finalLead
                        (find (fun l => id l =? id updatedLead) (leads updated))
                        updatedLead = stored).
    { unfold updated. simpl leads.
      rewrite (find_map_replace (fun l => id l =? id updatedLead) stored
                 (leads current) Hp).
      unfold stored.
      destruct (find (fun l => id l =? id updatedLead) (leads current))
        as [existing|]; [|reflexivity].
      unfold finalLead.
      destruct (negb (name existing =? name updatedLead)
                || negb (description existing =? description updatedLead));
        simpl; rewrite !String.eqb_refl; reflexivity. }
    assert (Hleads : map (fun l => if id l =? id updatedLead then stored else l)
                       (leads updated) = leads updated).
    { unfold updated. simpl leads. rewrite map_map. apply map_ext. intros l.
      destruct (id l =? id updatedLead) eqn:E; [rewrite Hp|rewrite E]; reflexivity. }
    assert (H2 : handleUpdateLead updatedLead w1
                 = (Returned tt,
                    set_state (add_events w1 [Saved updated])
                      (with_transmission (state w1) (Some updated)))).
    { rewrite (handleUpdateLead_run updatedLead updated w1 eq_refl). cbv zeta.
      rewrite Hstored, Hleads, with_leads_same. reflexivity. }
    rewrite H1. change (snd (Returned tt, w1)) with w1. rewrite H2. reflexivity.
  - assert (H : handleUpdateLead updatedLead w = (Returned tt, w)).
    { unfold handleUpdateLead, setState. rewrite run_bind. unfold get_world.
      rewrite run_bind, Ht. unfold ret. rewrite set_state_same. reflexivity. }
    rewrite H. simpl snd. rewrite H. reflexivity.
Qed.

(** X15. [handleRegenerateDossierField] generates nothing unless the gate
    is open, the lead has details and a transmission is loaded: otherwise
    no request is made, nothing is saved and the transmission and the
    active lead stay as they are.  With the gate closed it opens the key
    dialog; with the gate open it does nothing at all. *)
Theorem regeneration_needs_gate_details_and_transmission
    (lead : Lead) (fieldType : FieldType) (sensoryField : option SensoryField)
    (w : World) :
  canGenerate w = false \/ details lead = None \/ transmission (state w) = None ->
  let run := handleRegenerateDossierField lead fieldType sensoryField w in
  fst run = Returned tt /\
  trace (snd run) = trace w /\
  state (snd run) = state w /\
  activeLead (snd run) = activeLead w /\
  (canGenerate w = false -> snd run = set_showKeyModal w true) /\
  (canGenerate w = true -> snd run = w).
Proof.
  intros H run. unfold run, handleRegenerateDossierField.
  rewrite run_bind. unfold get_world.
  destruct (canGenerate w) eqn:Hg; cbn [negb].
  - assert (Hnone : match details lead, transmission (state w) with
                    | Some _, Some _ => False
                    | _, _ => True
                    end).
    { destruct H as [H|[H|H]]; [discriminate| |]; rewrite H; [exact I|].
      destruct (details lead); exact I. }
    destruct (details lead); destruct (transmission (state w));
      try contradiction; repeat split; intros; try reflexivity; discriminate.
  - repeat split; intros; try reflexivity; discriminate.
Qed.

Lemma regenerateSensoryField_world lead field current exposition w :
  exists es,
    snd (regenerateSensoryField lead field current exposition w) = add_events w es /\
    quiet es.
Proof.
  unfold regenerateSensoryField. rewrite run_bind.
  destruct (streamJson_silent_world (T := StringIndexed) "gemini-3-flash-preview"
              (sensory_field_prompt lead field current exposition)
              (json_config
                 (TypeOBJECT [ (SensoryField_key field, TypeSTRING None) ]
                             [ SensoryField_key field ])) w) as (es & H & Q).
  destruct (streamJson _ _ _ None w) as [[data|e] w1]; exists es; split; assumption.
Qed.

Lemma regenerateExpandedDescription_world lead current exposition w :
  exists es,
    snd (regenerateExpandedDescription lead current exposition w) = add_events w es /\
    quiet es.
Proof.
  unfold regenerateExpandedDescription. rewrite run_bind.
  match goal with |- context [streamJson ?m ?c ?cfg None w] =>
    destruct (streamJson_silent_world (T := DossierData) m c cfg w) as (es & H & Q);
    destruct (streamJson m c cfg None w) as [[data|e] w1] end;
    exists es; split; assumption.
Qed.

(** X16. A failed regeneration of a sensory field or of the expanded
    description is contained: the handler returns, logs the error, and
    leaves the transmission and the active lead as they were; nothing is
    saved. *)
Theorem text_regeneration_failure_contained
    (lead : Lead) (d : LeadDetails) (current : Transmission) (w : World)
    (fieldType : FieldType) (sensoryField : option SensoryField) (e : Exn) :
  canGenerate w = true ->
  details lead = Some d ->
  transmission (state w) = Some current ->
  (exists field,
      fieldType = FieldSensory /\ sensoryField = Some field /\
      fst (regenerateSensoryField lead field (sensory d) (exposition current) w)
      = Thrown e) \/
  (fieldType = FieldDossier /\
   fst (regenerateExpandedDescription lead (sensory d) (exposition current) w)
   = Thrown e) ->
  let run := handleRegenerateDossierField lead fieldType sensoryField w in
  fst run = Returned tt /\
  state (snd run) = state w /\
  activeLead (snd run) = activeLead w /\
  saved_transmissions (trace (snd run)) = saved_transmissions (trace w) /\
  exists es,
    console_errors (trace (snd run))
    = (console_errors (trace w) ++ es ++ [("Regeneration failed:", Some e)])%list.
Proof.
  intros Hg Hd Ht Hfail run.
  assert (Hr : exists es,
             regenerate_details lead d (exposition current) fieldType sensoryField w
             = (Thrown e, add_events w es) /\ quiet es).
  { destruct Hfail as [(field & -> & -> & Hf) | (-> & Hf)].
    - destruct (regenerateSensoryField_world lead field (sensory d)
                  (exposition current) w) as (es & Hw & Q).
      exists es. split; [|exact Q]. unfold regenerate_details. rewrite run_bind.
      destruct (regenerateSensoryField _ _ _ _ w) as [o w1].
      simpl in Hf, Hw. subst. reflexivity.
    - destruct (regenerateExpandedDescription_world lead (sensory d)
                  (exposition current) w) as (es & Hw & Q).
      exists es. split; [|exact Q].
      assert (Hdef : regenerate_details lead d (exposition current) FieldDossier
                       sensoryField
                     = (newDescription <- regenerateExpandedDescription lead (sensory d)
                                            (exposition current) ;;
                        ret (with_expandedDescription d newDescription)))
        by (destruct sensoryField; reflexivity).
      rewrite Hdef, run_bind.
      destruct (regenerateExpandedDescription _ _ _ w) as [o w1].
      simpl in Hf, Hw. subst. reflexivity. }
  destruct Hr as (es & Hr & [_ Hs]).
  unfold run, handleRegenerateDossierField. rewrite run_bind. unfold get_world.
  rewrite Hg, Hd, Ht. cbn [negb]. rewrite run_try_catch, run_bind, Hr.
  unfold console_error, emit. simpl fst. simpl snd.
  split; [reflexivity|]. split; [reflexivity|]. split; [reflexivity|].
  simpl trace. split.
  - rewrite !saved_transmissions_app, Hs. simpl. rewrite !app_nil_r. reflexivity.
  - exists (console_errors es). unfold console_errors. rewrite !flat_map_app.
    simpl. rewrite <- app_assoc. reflexivity.
Qed.

Lemma first_inline_image_truthy ps url :
  first_inline_image ps = Some url -> Text.truthy url = true.
Proof.
  induction ps as [|part ps IH]; simpl; [discriminate|].
  destruct (inlineData part); [intros [= <-]; reflexivity | exact IH].
Qed.

(** X17. Regenerating the expanded description of a lead that has details:
    the details stored and shown differ from the old ones in the expanded
    description only, which is the text the stage returned; the sensory
    fields and the image are the old ones, the transmission saved is the
    one stored, and the handler itself makes no further request. *)
Theorem dossier_regeneration_frame
    (lead : Lead) (d : LeadDetails) (current : Transmission) (w : World)
    (sensoryField : option SensoryField) (text : string) :
  canGenerate w = true ->
  details lead = Some d ->
  transmission (state w) = Some current ->
  fst (regenerateExpandedDescription lead (sensory d) (exposition current) w)
  = Returned text ->
  let w' := snd (handleRegenerateDossierField lead FieldDossier sensoryField w) in
  let d' := {| sensory := sensory d; expandedDescription := text;
               imageUrl := imageUrl d |} in
  let updated :=
    with_leads current
      (map (fun l => if id l =? id lead then with_details l (Some d') else l)
         (leads current)) in
  activeLead w' = Some {| active_lead := with_details lead (Some d');
                          active_details := Some d' |} /\
  transmission (state w') = Some updated /\
  trace w'
  = (trace (snd (regenerateExpandedDescription lead (sensory d) (exposition current) w))
     ++ [Saved updated])%list.
Proof.
  intros Hg Hd Ht Hf w' d' updated.
  destruct (regenerateExpandedDescription_world lead (sensory d) (exposition current) w)
    as (es & Hw & _).
  assert (Hr : regenerate_details lead d (exposition current) FieldDossier sensoryField w
               = (Returned d', add_events w es)).
  { assert (Hdef : regenerate_details lead d (exposition current) FieldDossier
                     sensoryField
                   = (newDescription <- regenerateExpandedDescription lead (sensory d)
                                          (exposition current) ;;
                      ret (with_expandedDescription d newDescription)))
      by (destruct sensoryField; reflexivity).
    rewrite Hdef, run_bind.
    destruct (regenerateExpandedDescription _ _ _ w) as [o w1].
    simpl in Hf, Hw. subst. reflexivity. }
  unfold w'.
  rewrite (handleRegenerateDossierField_run _ _ _ _ _ _ _ _ Hg Hd Ht Hr eq_refl).
  cbv zeta. rewrite Hw. repeat split.
Qed.

(** X18. When regenerating the image of a lead yields an image, the details
    stored and shown differ from the old ones in the image only: the
    sensory fields and the expanded description are the old ones. *)
Theorem image_regeneration_frame
    (lead : Lead) (d : LeadDetails) (current : Transmission) (w : World)
    (sensoryField : option SensoryField) (url : string) :
  canGenerate w = true ->
  details lead = Some d ->
  transmission (state w) = Some current ->
  fst (regenerateLeadImage lead (sensory d) (expandedDescription d)
         (exposition current) w) = Returned (Some url) ->
  let w' := snd (handleRegenerateDossierField lead FieldImage sensoryField w) in
  let d' := {| sensory := sensory d; expandedDescription := expandedDescription d;
               imageUrl := Some url |} in
  activeLead w' = Some {| active_lead := with_details lead (Some d');
                          active_details := Some d' |} /\
  transmission (state w')
  = Some (with_leads current
            (map (fun l => if id l =? id lead then with_details l (Some d') else l)
               (leads current))).
Proof.
  intros Hg Hd Ht Himg w' d'.
  assert (Hst := regenerateLeadImage_state lead (sensory d) (expandedDescription d)
                   (exposition current) w).
  assert (Htruthy : Text.truthy url = true).
  { unfold regenerateLeadImage in Himg. rewrite image_stage_result in Himg.
    injection Himg as Himg. unfold image_result in Himg.
    destruct (credential w); [|discriminate].
    destruct (service_image _ _); [discriminate|].
    apply (first_inline_image_truthy _ _ Himg). }
  destruct (regenerateLeadImage lead (sensory d) (expandedDescription d)
              (exposition current) w) as [o w1] eqn:E.
  simpl in Himg, Hst. subst o.
  assert (Hr : regenerate_details lead d (exposition current) FieldImage sensoryField w
               = (Returned d', w1)).
  { unfold regenerate_details. rewrite run_bind, E, Htruthy. reflexivity. }
  unfold w'.
  rewrite (handleRegenerateDossierField_run _ _ _ _ _ _ _ _ Hg Hd Ht Hr Hst).
  cbv zeta. split; reflexivity.
Qed.

(** X19. The update that the dossier view hands back stores the lead as it
    is passed, details included, in place of every lead with its id, shows
    it as the active lead and saves the transmission it stores; unlike
    [handleUpdateLead] it never clears details. *)
Theorem LeadDossier_onUpdate_stores_as_passed
    (updatedLead : Lead) (current : Transmission) (w : World) :
  transmission (state w) = Some current ->
  let updated :=
    with_leads current
      (map (fun l => if id l =? id updatedLead then updatedLead else l)
         (leads current)) in
  LeadDossier_onUpdate updatedLead w
  = (Returned tt,
     set_activeLead
       (set_state (add_events w [Saved updated])
          (with_transmission (state w) (Some updated)))
       (Some {| active_lead := updatedLead; active_details := details updatedLead |})) /\
  (forall existing,
      find (fun l => id l =? id updatedLead) (leads current) = Some existing ->
      find (fun l => id l =? id updatedLead) (leads updated) = Some updatedLead).
Proof.
  intros Ht updated. split.
  - unfold LeadDossier_onUpdate.
    cbv [bind setState get_world saveTransmission emit ret setActiveLead].
    rewrite Ht. reflexivity.
  - intros existing Hfind. unfold updated. simpl leads.
    rewrite (find_map_replace (fun l => id l =? id updatedLead) updatedLead).
    + rewrite Hfind. reflexivity.
    + apply String.eqb_refl.
Qed.

End AppExtras.

(** * Properties of the stored key *)

Section KeyExtras.

Import Observe Watch.

Context {runtime : Runtime}.

Lemma set_hasApiKey_same w : set_hasApiKey w (hasApiKey w) = w.
Proof. destruct w; reflexivity. Qed.

(** X20. After a key is submitted the gate is open and the key dialog is
    closed, whatever the key; the client is then built with exactly the
    submitted key, unless the key is empty, in which case no credential
    resolves although the gate is open.  Trace and transmission are
    untouched. *)
Theorem key_submit_then_lookup (key : string) (w : World) :
  let w' := snd (handleManualKeySubmit key w) in
  getAI w' = (if Text.truthy key then Returned {| apiKey := key |}
              else Thrown MissingCredential, w') /\
  canGenerate w' = true /\
  showKeyModal w' = false /\
  trace w' = trace w /\ state w' = state w.
Proof.
  intros w'. unfold w'. split.
  - rewrite getAI_run. unfold credential. simpl.
    destruct (Text.truthy key); reflexivity.
  - repeat split. unfold canGenerate. simpl. destruct (user w); reflexivity.
Qed.

(** X21. After the key is disconnected no credential resolves, whatever
    was stored or submitted before: [getAI] throws the missing-key error,
    and the gate is open only for a signed-in user.  Trace and
    transmission are untouched. *)
Theorem key_disconnect (w : World) :
  let w' := snd (handleDisconnectKey w) in
  getAI w' = (Thrown MissingCredential, w') /\
  canGenerate w' = signed_in w /\
  trace w' = trace w /\ state w' = state w /\
  forall key, credential (snd (handleDisconnectKey (snd (handleManualKeySubmit key w))))
              = None.
Proof.
  intros w'. unfold w'. split; [rewrite getAI_run; reflexivity|].
  repeat split.
Qed.

(** X22. [checkManualKey] opens the gate exactly when the stored key is
    longer than ten characters and otherwise changes nothing; it never
    closes the gate.  A stored key of one to ten characters therefore
    resolves as a credential and yet leaves the gate closed. *)
Theorem checkManualKey_threshold (w : World) :
  checkManualKey w
  = (Returned tt, if long_key w then set_hasApiKey w true else w) /\
  (forall k,
      technoir_api_key w = Some k ->
      1 <= String.length k <= 10 ->
      hasApiKey w = false -> user w = None ->
      credential (snd (checkManualKey w)) = Some k /\
      canGenerate (snd (checkManualKey w)) = false).
Proof.
  assert (H : checkManualKey w
              = (Returned tt, if long_key w then set_hasApiKey w true else w)).
  { unfold checkManualKey, localStorage_getItem, long_key.
    rewrite !run_bind. unfold get_world, ret.
    destruct (technoir_api_key w) as [k|]; [|reflexivity].
    destruct k as [|c k]; [reflexivity|]. simpl Text.truthy. simpl andb.
    destruct (Nat.ltb 10 (String.length (String c k))); reflexivity. }
  split; [exact H|].
  intros k Hk [Hlo Hhi] Hflag Huser. rewrite H. unfold long_key. rewrite Hk.
  destruct (Nat.ltb_spec 10 (String.length k)) as [Hlt|_]; [lia|].
  simpl snd. split.
  - unfold credential. rewrite Hk. destruct k; [simpl in Hlo; lia|reflexivity].
  - unfold canGenerate. rewrite Huser. exact Hflag.
Qed.

End KeyExtras.

(** * Properties of opening a dossier *)

Section InspectExtras.

Import Observe Watch.

Context {runtime : Runtime}.
Context {json_text : JSON LeadText}.

Lemma run_bindV {A B} (c : V A) (k : A -> V B) s :
  bindV c k s = match c s with
                | (Returned a, s') => k a s'
                | (Thrown e, s') => (Thrown e, s')
                end.
Proof. reflexivity. Qed.

Lemma run_try_catchV {A} (c : V A) (handler : Exn -> V A) s :
  try_catchV c handler s = match c s with
                           | (Returned a, s') => (Returned a, s')
                           | (Thrown e, s') => handler e s'
                           end.
Proof. reflexivity. Qed.

Lemma run_on_page {A} (c : M A) s :
  on_page c s
  = (fst (c (page s)),
     {| page := snd (c (page s)); isImageRevealed := isImageRevealed s;
        scheduled_reveals := scheduled_reveals s |}).
Proof. unfold on_page. destruct (c (page s)); reflexivity. Qed.

(** X23. Opening the dossier of a lead makes no request when the lead
    already has details, key or no key: the details are shown as they are,
    the reveal of the image is scheduled after 100 ms, and nothing is
    generated or saved.  Without details and with the gate closed, only
    the key dialog opens. *)
Theorem inspect_without_generation (t : Transmission) (lead : Lead) (s : Screen) :
  details lead <> None \/ canGenerate (page s) = false ->
  let run := handleInspectLead t lead s in
  fst run = Returned tt /\
  trace (page (snd run)) = trace (page s) /\
  state (page (snd run)) = state (page s) /\
  isImageRevealed (snd run) = isImageRevealed s /\
  (forall d, details lead = Some d ->
     activeLead (page (snd run))
     = Some {| active_lead := lead; active_details := Some d |} /\
     scheduled_reveals (snd run) = (scheduled_reveals s ++ [100])%list /\
     showKeyModal (page (snd run)) = showKeyModal (page s)) /\
  (details lead = None ->
     snd run = {| page := set_showKeyModal (page s) true;
                  isImageRevealed := isImageRevealed s;
                  scheduled_reveals := scheduled_reveals s |}).
Proof.
  intros H run. unfold run, handleInspectLead.
  destruct (details lead) as [d|] eqn:Hd.
  - rewrite run_bindV, run_on_page. simpl.
    repeat split; try reflexivity; try discriminate; congruence.
  - destruct H as [H|H]; [contradiction|].
    rewrite run_bindV, run_on_page. simpl fst. cbv iota beta.
    simpl snd. rewrite H. cbn [negb]. rewrite run_on_page. simpl.
    repeat split; try reflexivity; discriminate.
Qed.

(** X24. When the detail text fails for a lead without details, opening
    its dossier is contained: the handler returns and logs the error; the
    lead stays active without details, the image is not revealed and no
    reveal is scheduled; the transmission is untouched, nothing is saved
    and no image is requested. *)
Theorem inspect_failure_contained
    (t : Transmission) (lead : Lead) (s : Screen) (e : Exn) :
  details lead = None ->
  canGenerate (page s) = true ->
  let opened := set_activeLead (page s) (Some (undetailed lead)) in
  let attempt :=
    generateLeadInspectionText lead (title t) (settingSummary t) (exposition t) opened in
  fst attempt = Thrown e ->
  let run := handleInspectLead t lead s in
  fst run = Returned tt /\
  page (snd run) = add_events (snd attempt) [ConsoleError EmptyString (Some e)] /\
  state (page (snd run)) = state (page s) /\
  activeLead (page (snd run)) = Some (undetailed lead) /\
  saved_transmissions (trace (page (snd run))) = saved_transmissions (trace (page s)) /\
  isImageRevealed (snd run) = false /\
  scheduled_reveals (snd run) = scheduled_reveals s.
Proof.
  intros Hd Hg opened attempt Hfail run.
  destruct (generateLeadInspectionText_world lead (title t) (settingSummary t)
              (exposition t) opened) as (es & Hw & [_ Hs]).
  fold attempt in Hw.
  assert (Hrun : run
                 = (Returned tt,
                    {| page := add_events (snd attempt)
                                 [ConsoleError EmptyString (Some e)];
                       isImageRevealed := false;
                       scheduled_reveals := scheduled_reveals s |})).
  { unfold run, handleInspectLead. rewrite Hd.
    rewrite run_bindV, run_on_page. simpl fst. cbv iota beta. simpl snd.
    rewrite Hg. cbn [negb].
    rewrite run_bindV, run_on_page. simpl fst. cbv iota beta.
    rewrite run_bindV. unfold setIsImageRevealed at 1. cbv iota beta.
    rewrite run_try_catchV, run_bindV, run_on_page.
    simpl page. fold opened. fold attempt. rewrite Hfail. cbv iota beta.
    rewrite run_on_page. reflexivity. }
  rewrite Hrun. simpl fst. simpl snd. simpl page.
  split; [reflexivity|]. split; [reflexivity|]. rewrite Hw.
  split; [reflexivity|]. split; [reflexivity|].
  split; [|split; reflexivity].
  simpl trace. rewrite !saved_transmissions_app, Hs. simpl. rewrite !app_nil_r.
  reflexivity.
Qed.

(** X25. When the detail text is generated for a lead without details,
    opening its dossier stores details for the lead: the sensory fields and
    the expanded description of the text stage, and what the image stage
    returns when it is asked, with the sight of that text, once the lead is
    shown with the text alone; that is an image or none, and a missing
    image stops nothing.  Every lead with the id gets these details, the
    other leads stay, the lead is shown with them, the reveal is scheduled
    after 300 ms, and after the image stage nothing happens but the save of
    the transmission stored. *)
Theorem inspect_stores_details
    (t : Transmission) (lead : Lead) (s : Screen) (current : Transmission)
    (textDetails : LeadText) :
  details lead = None ->
  canGenerate (page s) = true ->
  transmission (state (page s)) = Some current ->
  let opened := set_activeLead (page s) (Some (undetailed lead)) in
  let text_run :=
    generateLeadInspectionText lead (title t) (settingSummary t) (exposition t) opened in
  fst text_run = Returned textDetails ->
  let textOnly :=
    {| sensory := picked_sensory textDetails;
       expandedDescription := picked_expandedDescription textDetails;
       imageUrl := None |} in
  let shown :=
    set_activeLead (snd text_run)
      (Some {| active_lead := with_details lead (Some textOnly);
               active_details := Some textOnly |}) in
  let image_run :=
    generateLeadInspectionImage lead (title t) (settingSummary t)
      (sight (picked_sensory textDetails)) shown in
  let run := handleInspectLead t lead s in
  exists image,
    fst image_run = Returned image /\
    let finalDetails :=
      {| sensory := picked_sensory textDetails;
         expandedDescription := picked_expandedDescription textDetails;
         imageUrl := image |} in
    let updated :=
      with_leads current
        (map (fun l => if id l =? id lead then with_details l (Some finalDetails) else l)
           (leads current)) in
    fst run = Returned tt /\
    transmission (state (page (snd run))) = Some updated /\
    activeLead (page (snd run))
    = Some {| active_lead := with_details lead (Some finalDetails);
              active_details := Some finalDetails |} /\
    trace (page (snd run)) = (trace (snd image_run) ++ [Saved updated])%list /\
    isImageRevealed (snd run) = false /\
    scheduled_reveals (snd run) = (scheduled_reveals s ++ [300])%list.
Proof.
  intros Hd Hg Ht opened text_run Htext textOnly shown image_run run.
  destruct (generateLeadInspectionText_world lead (title t) (settingSummary t)
              (exposition t) opened) as (es1 & Hw1 & _).
  fold text_run in Hw1.
  set (req := {| image_model := "gemini-2.5-flash-image";
                 image_text := inspection_image_prompt lead (title t) (settingSummary t)
                                 (sight (picked_sensory textDetails));
                 aspectRatio := "1:1" |}).
  assert (R2 : fst image_run = Returned (image_result shown req))
    by apply image_stage_result.
  assert (Hs2 : state (snd image_run) = state (page s)).
  { destruct (image_stage_world "Lead image generation failed" req shown)
      as (es2 & Hw2 & _).
    unfold image_run, generateLeadInspectionImage. fold req. rewrite Hw2.
    unfold shown. simpl. rewrite Hw1. reflexivity. }
  exists (image_result shown req). split; [exact R2|]. cbv zeta.
  set (finalDetails := {| sensory := picked_sensory textDetails;
                          expandedDescription := picked_expandedDescription textDetails;
                          imageUrl := image_result shown req |}).
  set (updated := with_leads current
                    (map (fun l => if id l =? id lead
                                   then with_details l (Some finalDetails) else l)
                       (leads current))).
  assert (Hrun : handleInspectLead t lead s
                 = (Returned tt,
                    {| page :=
                         set_activeLead
                           (set_state (add_events (snd image_run) [Saved updated])
                              (with_transmission (state (page s)) (Some updated)))
                           (Some {| active_lead := with_details lead (Some finalDetails);
                                    active_details := Some finalDetails |});
                       isImageRevealed := false;
                       scheduled_reveals := (scheduled_reveals s ++ [300])%list |})).
  { unfold handleInspectLead. rewrite Hd.
    rewrite run_bindV, run_on_page. simpl fst. cbv iota beta. simpl snd.
    rewrite Hg. cbn [negb].
    rewrite run_bindV, run_on_page. simpl fst. cbv iota beta.
    rewrite run_bindV. unfold setIsImageRevealed at 1. cbv iota beta.
    rewrite run_try_catchV, run_bindV, run_on_page.
    simpl page. fold opened. fold text_run. rewrite Htext. cbv iota beta zeta.
    rewrite run_bindV, run_on_page. simpl fst. cbv iota beta. simpl snd.
    simpl page. fold textOnly. fold shown.
    rewrite run_bindV, run_on_page. simpl page.
    fold image_run. rewrite R2. cbv iota beta.
    fold finalDetails.
    rewrite run_bindV, run_on_page. simpl page.
    cbv [bind setState get_world saveTransmission emit ret setActiveLead].
    rewrite Hs2, Ht. simpl fst. cbv iota beta. fold updated.
    rewrite run_bindV, run_on_page. simpl fst. cbv iota beta. reflexivity. }
  unfold run. rewrite Hrun. simpl.
  repeat split; reflexivity.
Qed.

End InspectExtras.

(** * The further properties at concrete inputs *)

Section ConcreteExtras.

Import Observe Watch Fixture Bench.

Lemma streamJson_single_request_witness :
  transport_calls
    (trace (snd (streamJson (runtime := offline) (json := only "{}" tt)
                   "gemini-3-flash-preview" "prompt" probe (Some recording) keyed)))
  = [NetStream "k-0123456789"
       {| stream_model := "gemini-3-flash-preview"; stream_contents := "prompt";
          stream_config := probe |}].
Proof.
  exact (streamJson_single_request (runtime := offline) (json := only "{}" tt)
           "gemini-3-flash-preview" "prompt" probe true keyed "k-0123456789" eq_refl).
Defined.

Lemma streamJson_service_error_witness :
  streamJson (runtime := offline) (json := only "{}" tt)
    "gemini-3-flash-preview" "prompt" probe (Some recording) keyed
  = (Thrown (ServiceError "offline"),
     add_events keyed
       [NetStream "k-0123456789"
          {| stream_model := "gemini-3-flash-preview"; stream_contents := "prompt";
             stream_config := probe |}]).
Proof.
  exact (streamJson_service_error_propagates (runtime := offline) (json := only "{}" tt)
           "gemini-3-flash-preview" "prompt" probe (Some recording) keyed
           "k-0123456789" (ServiceError "offline") eq_refl eq_refl).
Defined.

Lemma streamJson_broken_stream_witness :
  let run := streamJson (runtime := breaking) (json := only "{}" tt)
               "gemini-3-flash-preview" "prompt" probe (Some recording) keyed in
  fst run = Thrown (ServiceError "reset") /\
  callback_args (trace (snd run)) = ["{"; "{xy"] /\
  console_errors (trace (snd run)) = [].
Proof.
  cbv zeta.
  rewrite (streamJson_broken_stream (runtime := breaking) (json := only "{}" tt)
             "gemini-3-flash-preview" "prompt" probe keyed "k-0123456789"
             {| stream_chunks := [Some "{"; Some "xy"];
                stream_failure := Some (ServiceError "reset") |}
             (ServiceError "reset") eq_refl eq_refl eq_refl).
  repeat split.
Defined.

Lemma streamJson_malformed_output_witness :
  let run := streamJson (runtime := scripted fenced_chunks []) (json := nothing (T := unit))
               "gemini-3-flash-preview" "prompt" probe (Some recording) keyed in
  fst run = Thrown (SyntaxError "ROSTER") /\
  console_errors (trace (snd run))
  = [("JSON parse error", Some (SyntaxError "ROSTER"))].
Proof.
  cbv zeta.
  rewrite (streamJson_malformed_output (runtime := scripted fenced_chunks [])
             (json := nothing (T := unit))
             "gemini-3-flash-preview" "prompt" probe keyed "k-0123456789"
             {| stream_chunks := fenced_chunks; stream_failure := None |}
             eq_refl eq_refl eq_refl eq_refl).
  split; reflexivity.
Defined.

Lemma generateLeads_absent_array_witness :
  fst (generateLeads (runtime := scripted fenced_chunks [])
         (json_leads := only "ROSTER" {| data_leads := None |})
         "Neo-Tokyo 2099" "Neon Requiem" "Rain." expo None keyed)
  = Returned [].
Proof.
  apply (generateLeads_absent_array (runtime := scripted fenced_chunks [])
           (json_leads := only "ROSTER" {| data_leads := None |})
           "Neo-Tokyo 2099" "Neon Requiem" "Rain." expo None keyed
           {| stream_chunks := fenced_chunks; stream_failure := None |}).
  - reflexivity.
  - intros cb [=].
  - reflexivity.
  - reflexivity.
  - reflexivity.
Defined.

Lemma image_stage_single_request_witness :
  transport_calls
    (trace (snd (generateTransmissionHeader (runtime := offline)
                   "Neon Requiem" "Rain." expo keyed)))
  = [NetImage "k-0123456789"
       {| image_model := "gemini-2.5-flash-image";
          image_text := header_prompt "Neon Requiem" "Rain." expo;
          aspectRatio := "16:9" |}].
Proof.
  exact (proj1 (image_stage_single_request (runtime := offline) keyed "k-0123456789"
                  eq_refl) "Neon Requiem" "Rain." expo).
Defined.

Lemma recording_advisory : advisory recording.
Proof. intros arg w. eexists. split; reflexivity. Qed.

Lemma full_mode_missing_credential_witness :
  generateFullTransmission (runtime := haunted)
    (json_title := only "X" premise) (json_exposition := only "X" expo)
    (json_leads := only "X" {| data_leads := Some roster3 |})
    (json_text := only "X" scan)
    "Neo-Tokyo 2099" recording blank
  = (Thrown MissingCredential,
     add_events blank [Callback ">> GENERATING STRUCTURAL FRAMEWORK..."]).
Proof.
  destruct (full_mode_missing_credential (runtime := haunted)
              (json_title := only "X" premise) (json_exposition := only "X" expo)
              (json_leads := only "X" {| data_leads := Some roster3 |})
              (json_text := only "X" scan)
              "Neo-Tokyo 2099" recording blank eq_refl recording_advisory)
    as (w1 & Hlog & Hrun).
  rewrite Hrun. injection Hlog as <-. reflexivity.
Defined.








Lemma handleUpdateLead_no_match_witness :
  let stranger := lead_with "zzz" "Nobody" "Not on the roster." Threats None in
  handleUpdateLead stranger keyed = (Returned tt, keyed) /\
  handleUpdateLead stranger viewer = (Returned tt, add_events viewer [Saved on_screen]).
Proof.
  cbv zeta.
  destruct (handleUpdateLead_no_match
              (lead_with "zzz" "Nobody" "Not on the roster." Threats None) keyed)
    as [Hnone _].
  destruct (handleUpdateLead_no_match
              (lead_with "zzz" "Nobody" "Not on the roster." Threats None) viewer)
    as [_ Hmiss].
  split; [apply Hnone; reflexivity | apply (Hmiss on_screen); reflexivity].
Defined.

Lemma handleUpdateLead_frame_witness :
  let renamed := lead_with "con-1" "Wraith" "A broker nobody has met." Connections None in
  option_map (fun t => map id (leads t))
    (transmission (state (snd (handleUpdateLead renamed viewer))))
  = Some ["loc-1"; "con-1"] /\
  lookup "loc-1" (snd (handleUpdateLead renamed viewer)) = Some dock.
Proof.
  cbv zeta.
  destruct (handleUpdateLead_frame
              (lead_with "con-1" "Wraith" "A broker nobody has met." Connections None)
              on_screen viewer eq_refl)
    as (updated & stored & Hrun & Hids & _ & _ & _).
  split; [|reflexivity].
  rewrite Hrun. simpl snd. simpl state. simpl transmission.
  simpl option_map. rewrite Hids. reflexivity.
Defined.

Lemma regeneration_gate_witness :
  snd (handleRegenerateDossierField (runtime := offline)
         (json_indexed := nothing) (json_dossier := nothing)
         detailed_ghost FieldSensory (Some Smell) blank)
  = set_showKeyModal blank true /\
  snd (handleRegenerateDossierField (runtime := offline)
         (json_indexed := nothing) (json_dossier := nothing)
         dock FieldDossier None viewer)
  = viewer.
Proof.
  split.
  - apply (regeneration_needs_gate_details_and_transmission (runtime := offline)
             (json_indexed := nothing) (json_dossier := nothing)
             detailed_ghost FieldSensory (Some Smell) blank (or_introl eq_refl)).
    reflexivity.
  - apply (regeneration_needs_gate_details_and_transmission (runtime := offline)
             (json_indexed := nothing) (json_dossier := nothing)
             dock FieldDossier None viewer (or_intror (or_introl eq_refl))).
    reflexivity.
Defined.

Lemma text_regeneration_failure_witness :
  let run := handleRegenerateDossierField (runtime := offline)
               (json_indexed := nothing) (json_dossier := nothing)
               detailed_ghost FieldSensory (Some Smell) signed_in_keyless in
  canGenerate signed_in_keyless = true /\
  fst run = Returned tt /\
  state (snd run) = state signed_in_keyless /\
  saved_transmissions (trace (snd run)) = [].
Proof.
  cbv zeta.
  destruct (text_regeneration_failure_contained (runtime := offline)
              (json_indexed := nothing) (json_dossier := nothing)
              detailed_ghost dossier on_screen signed_in_keyless
              FieldSensory (Some Smell) MissingCredential
              eq_refl eq_refl eq_refl
              (or_introl (ex_intro _ Smell (conj eq_refl (conj eq_refl eq_refl)))))
    as (Hret & Hstate & _ & Hsaved & _).
  split; [reflexivity|]. split; [exact Hret|]. split; [exact Hstate|exact Hsaved].
Defined.

Lemma dossier_regeneration_frame_witness :
  let w' := snd (handleRegenerateDossierField (runtime := scripted [Some "X"] [])
                   (json_indexed := nothing)
                   (json_dossier := only "X" {| data_expandedDescription := "Rewritten" |})
                   detailed_ghost FieldDossier None viewer) in
  option_map active_details (activeLead w')
  = Some (Some {| sensory := senses; expandedDescription := "Rewritten";
                  imageUrl := Some "F" |}).
Proof.
  cbv zeta.
  destruct (dossier_regeneration_frame (runtime := scripted [Some "X"] [])
              (json_indexed := nothing)
              (json_dossier := only "X" {| data_expandedDescription := "Rewritten" |})
              detailed_ghost dossier on_screen viewer None "Rewritten"
              eq_refl eq_refl eq_refl eq_refl) as (Hactive & _).
  rewrite Hactive. reflexivity.
Defined.

Lemma image_regeneration_frame_witness :
  let w' := snd (handleRegenerateDossierField
                   (runtime := scripted [] [caption "here"; png "BBBB"; png "CCCC"])
                   (json_indexed := nothing) (json_dossier := nothing)
                   detailed_ghost FieldImage None viewer) in
  option_map active_details (activeLead w')
  = Some (Some {| sensory := senses; expandedDescription := "E";
                  imageUrl := Some "data:image/png;base64,BBBB" |}).
Proof.
  cbv zeta.
  destruct (image_regeneration_frame
              (runtime := scripted [] [caption "here"; png "BBBB"; png "CCCC"])
              (json_indexed := nothing) (json_dossier := nothing)
              detailed_ghost dossier on_screen viewer None "data:image/png;base64,BBBB"
              eq_refl eq_refl eq_refl eq_refl) as (Hactive & _).
  rewrite Hactive. reflexivity.
Defined.

Lemma LeadDossier_onUpdate_witness :
  let edited := lead_with "con-1" "Wraith" "A broker nobody has met." Connections
                  (Some dossier) in
  lookup "con-1" (snd (LeadDossier_onUpdate edited viewer)) = Some edited /\
  lookup "con-1" (snd (handleUpdateLead edited viewer))
  = Some (lead_with "con-1" "Wraith" "A broker nobody has met." Connections None).
Proof.
  cbv zeta.
  destruct (LeadDossier_onUpdate_stores_as_passed
              (lead_with "con-1" "Wraith" "A broker nobody has met." Connections
                 (Some dossier))
              on_screen viewer eq_refl) as (Hrun & Hfind).
  split; [|reflexivity].
  rewrite Hrun. unfold lookup. simpl state. simpl transmission.
  exact (Hfind detailed_ghost eq_refl).
Defined.

Lemma checkManualKey_threshold_witness :
  let short :=
    {| technoir_api_key := Some "AIza"; trace := []; state := blank_state;
       activeLead := None; user := None; hasApiKey := false; showKeyModal := false |} in
  credential (snd (checkManualKey short)) = Some "AIza" /\
  canGenerate (snd (checkManualKey short)) = false /\
  canGenerate (snd (checkManualKey (set_hasApiKey keyed false))) = true.
Proof.
  cbv zeta.
  destruct (checkManualKey_threshold
              {| technoir_api_key := Some "AIza"; trace := []; state := blank_state;
                 activeLead := None; user := None; hasApiKey := false;
                 showKeyModal := false |}) as (_ & Hshort).
  assert (Hlen : 1 <= String.length "AIza" <= 10) by (simpl; lia).
  destruct (Hshort "AIza" eq_refl Hlen eq_refl eq_refl) as (Hcred & Hgate).
  split; [exact Hcred|]. split; [exact Hgate|]. reflexivity.
Defined.

Lemma inspect_without_generation_witness :
  let run := handleInspectLead (runtime := offline) (json_text := nothing)
               on_screen detailed_ghost (screen_of blank) in
  fst run = Returned tt /\
  trace (page (snd run)) = [] /\
  scheduled_reveals (snd run) = [100].
Proof.
  cbv zeta.
  assert (Hdetails : details detailed_ghost <> None) by discriminate.
  destruct (inspect_without_generation (runtime := offline) (json_text := nothing)
              on_screen detailed_ghost (screen_of blank) (or_introl Hdetails))
    as (Hret & Htrace & _ & _ & Hshown & _).
  destruct (Hshown dossier eq_refl) as (_ & Hreveal & _).
  split; [exact Hret|]. split; [exact Htrace|exact Hreveal].
Defined.

Lemma inspect_failure_contained_witness :
  let run := handleInspectLead (runtime := offline) (json_text := nothing)
               on_screen dock (screen_of viewer) in
  fst run = Returned tt /\
  state (page (snd run)) = state viewer /\
  activeLead (page (snd run)) = Some (undetailed dock) /\
  isImageRevealed (snd run) = false /\
  scheduled_reveals (snd run) = [].
Proof.
  cbv zeta.
  destruct (inspect_failure_contained (runtime := offline) (json_text := nothing)
              on_screen dock (screen_of viewer) (ServiceError "offline")
              eq_refl eq_refl eq_refl)
    as (Hret & _ & Hstate & Hactive & _ & Hrevealed & Hsched).
  repeat split; assumption.
Defined.

Lemma inspect_stores_details_witness :
  let run := handleInspectLead (runtime := haunted) (json_text := only "X" scan)
               on_screen dock (screen_of viewer) in
  fst run = Returned tt /\
  lookup "loc-1" (page (snd run))
  = Some (lead_with "loc-1" "Dock 9" "A pier that floods at noon." Locations
            (Some {| sensory := senses; expandedDescription := "E";
                     imageUrl := Some "data:image/png;base64,AAAA" |})) /\
  lookup "con-1" (page (snd run)) = Some detailed_ghost /\
  scheduled_reveals (snd run) = [300].
Proof.
  cbv zeta.
  destruct (inspect_stores_details (runtime := haunted) (json_text := only "X" scan)
              on_screen dock (screen_of viewer) on_screen scan
              eq_refl eq_refl eq_refl eq_refl)
    as (image & Himage & Hret & Hstored & _ & _ & _ & Hsched).
  assert (Hpng : image = Some "data:image/png;base64,AAAA").
  { vm_compute in Himage. congruence. }
  subst image.
  split; [exact Hret|]. unfold lookup. rewrite Hstored.
  split; [reflexivity|]. split; [reflexivity|exact Hsched].
Defined.

End ConcreteExtras.
